(** * Storage layer of the watch-tower: Redis adapter and storage facade

    A shallow embedding of [src/services/redis-storage.ts] (class
    [RedisDBService]) and of the storage facade (class [DBService]),
    together with the properties their specification states; then the
    filter policy, the configuration generator and the orders routes of the
    API, with further properties.

    Asynchronous functions are modelled by their sequential behaviour: an
    [await] is the point where the awaited call's completion is consumed.
    A promise that rejects is an abrupt completion [Throw].  What the client
    does by itself after a call has returned (its [close] event, its further
    connection attempts) is a step of its own. *)

From stdpp Require Import base gmap strings list pretty.
From Stdlib Require Import ZArith Lia.

Local Open Scope Z_scope.

(** ** JavaScript values used by the adapter *)

Module Js.

(** A thrown value.  The adapter only ever reads [message]; [None] stands
    for a thrown value without a [message] property ([undefined]). *)
Record Error := mkError { message : option string }.

(** Completion of a call: a value, or an exception. *)
Inductive Completion (A : Type) : Type :=
| Return (a : A)
| Throw (e : Error).
Arguments Return {A} a.
Arguments Throw {A} e.

(** [s.includes(needle)]: [needle] occurs in [s] at some position. *)
Fixpoint includes (s needle : string) : bool :=
  String.prefix needle s ||
  match s with
  | EmptyString => false
  | String _ s' => includes s' needle
  end.

(** [m?.includes(needle)] used as a condition: [undefined] is falsy. *)
Definition opt_includes (m : option string) (needle : string) : bool :=
  match m with
  | Some s => includes s needle
  | None => false
  end.

(** A value interpolated in a template literal. *)
Definition interpolate (m : option string) : string :=
  match m with
  | Some s => s
  | None => "undefined"
  end.

(** A [number] as far as the adapter uses one: a TCP port read from the
    configuration.  [NaN] is what [Number(s)] gives for a string that is
    not numeric, [Infinity] what it gives for digits beyond the largest
    double. *)
Inductive number : Type :=
| NaN
| Int (z : Z)
| Infinity (negative : bool).

(** Truthiness of a number: [0] and [NaN] are falsy. *)
Definition truthy_number (n : number) : bool :=
  match n with
  | NaN => false
  | Int z => negb (z =? 0)
  | Infinity _ => true
  end.

(** Truthiness of a string: only the empty string is falsy. *)
Definition truthy_string (s : string) : bool :=
  match s with
  | EmptyString => false
  | String _ _ => true
  end.

Definition number_to_string (n : number) : string :=
  match n with
  | NaN => "NaN"
  | Int z => pretty z
  | Infinity negative => if negative then "-Infinity" else "Infinity"
  end.

(** [a || b] on optional strings ([undefined] and [""] are falsy). *)
Definition or_string (a : option string) (b : option string) : option string :=
  match a with
  | Some s => if truthy_string s then Some s else b
  | None => b
  end.

(** [a || b] with a string on the right. *)
Definition or_else (a : option string) (b : string) : string :=
  match a with
  | Some s => if truthy_string s then s else b
  | None => b
  end.

(** [a || b] on optional numbers, with a number on the right. *)
Definition or_number (a : option number) (b : number) : number :=
  match a with
  | Some n => if truthy_number n then n else b
  | None => b
  end.

(** What a function sees of the process: the environment variables, and
    the lines written through loggers, as (logger name, message). *)
Record Runtime := mkRuntime {
  env : gmap string string;
  console : list (string * string);
}.

(** [getLogger({ name }).info(msg)] (or [.error]) *)
Definition log (name msg : string) (rt : Runtime) : Runtime :=
  {| env := env rt; console := console rt ++ [(name, msg)] |}.

End Js.

Import Js.

(** ** The remote store as seen through the ioredis client

    The physical store is a finite map from the keys on the wire to values.
    [trace] records, in order, what the adapter asked of the client. *)

Module Client.

(** A command queued in a pipeline. *)
Inductive Command : Type :=
| SET (key value : string)
| DEL (key : string).

Definition command_key (c : Command) : string :=
  match c with
  | SET k _ => k
  | DEL k => k
  end.

(** What the adapter did with the client. [EvPipeline] is the creation of
    a pipeline object (local); [EvGet], [EvExec], [EvConnect] and [EvQuit]
    go over the network. *)
Inductive Event : Type :=
| EvGet (key : string)
| EvPipeline
| EvExec (commands : list Command)
| EvConnect
| EvQuit.

Record Wire := mkWire {
  remote : gmap string string;
  trace : list Event;
}.

Definition record (e : Event) (w : Wire) : Wire :=
  {| remote := remote w; trace := trace w ++ [e] |}.

(** The server's effect of one command. *)
Definition apply_command (m : gmap string string) (c : Command) : gmap string string :=
  match c with
  | SET k v => <[k:=v]> m
  | DEL k => delete k m
  end.

(** Commands of a pipeline are executed in the order they were queued. *)
Definition apply_commands (m : gmap string string) (cs : list Command) : gmap string string :=
  foldl apply_command m cs.

(** [client.get(key)]: resolves to the value or to [null] ([None]); with a
    transport fault [fault] it rejects with that error and the store is
    not consulted. *)
Definition get (fault : option Error) (key : string) (w : Wire)
  : Wire * Completion (option string) :=
  let w' := record (EvGet key) w in
  match fault with
  | Some e => (w', Throw e)
  | None => (w', Return (remote w !! key))
  end.

(** [pipeline.exec()]: all queued commands are sent together, and the
    promise resolves with one result per command, an error or a reply.  With
    a transport fault [(n, e)] the first [n] commands reached the store and
    the others have the error [e] as their result; nothing is rolled back and
    the promise still resolves.  A result is [None] for a reply and [Some e]
    for an error. *)
Definition exec (fault : option (nat * Error)) (cs : list Command) (w : Wire)
  : Wire * Completion (list (option Error)) :=
  let w' := record (EvExec cs) w in
  match fault with
  | Some (n, e) =>
      ({| remote := apply_commands (remote w') (take n cs); trace := trace w' |},
       Return (replicate (length (take n cs)) None ++
               replicate (length (drop n cs)) (Some e)))
  | None =>
      ({| remote := apply_commands (remote w') cs; trace := trace w' |},
       Return (replicate (length cs) None))
  end.

(** Whether an event carries only keys that start with [p]. *)
Definition event_prefixed (p : string) (e : Event) : bool :=
  match e with
  | EvGet k => String.prefix p k
  | EvExec cs => forallb (fun c => String.prefix p (command_key c)) cs
  | EvPipeline | EvConnect | EvQuit => true
  end.

End Client.

(** ** [RedisDBService] *)

Module RedisDBService.

Import Client.

(** [RedisConfig] *)
Record RedisConfig := mkRedisConfig {
  host : string;
  port : option number;
  password : option string;
}.

(** The part of [RedisOptions] the constructor fills in. *)
Record RedisOptions := mkRedisOptions {
  opt_host : string;
  opt_lazyConnect : bool;
  opt_showFriendlyErrorStack : bool;
  opt_enableAutoPipelining : bool;
  opt_maxRetriesPerRequest : Z;
  opt_port : option number;
  opt_password : option string;
}.

(** An instance: the client it owns is identified by its options. *)
Record t := mkService {
  options : RedisOptions;
  isConnected : bool;
  keyPrefix : string;
}.

(** The value of the field initialiser of [keyPrefix]. *)
Definition defaultKeyPrefix : string := "cryptoswap:watch-tower:".

(** [retryStrategy] of the options: called by ioredis with the number of
    the connection attempt that just failed. *)
Definition retryStrategy (times : Z) : Completion Z :=
  if times >? 3 then
    Throw (mkError (Some ("[Redis] Could not connect after " +:+ pretty times +:+ " attempts")))
  else
    Return (Z.min (times * 200) 1000).

(** [prefixKey] *)
Definition prefixKey (this : t) (key : string) : string :=
  keyPrefix this +:+ key.

(** The two errors [get] creates: [NotFound] for an absent key, and
    [OperationError], which carries the operation, the key and the message
    of the error it wraps. *)
Definition NotFound (key : string) : Error :=
  mkError (Some ("Key not found: " +:+ key)).

Definition OperationError (key : string) (cause : Error) : Error :=
  mkError (Some ("Redis get error for key " +:+ key +:+ ": " +:+
                 interpolate (message cause))).

(** The [try] block of [get]. *)
Definition get_try (this : t) (fault : option Error) (key : string) (w : Wire)
  : Wire * Completion string :=
  let prefixedKey := prefixKey this key in
  match Client.get fault prefixedKey w with
  | (w', Throw e) => (w', Throw e)
  | (w', Return None) => (w', Throw (NotFound key))
  | (w', Return (Some value)) => (w', Return value)
  end.

(** The [catch] block of [get]. *)
Definition get_catch (key : string) (error : Error) : Error :=
  if opt_includes (message error) "Key not found" then error
  else OperationError key error.

(** [getDB().get] *)
Definition get (this : t) (fault : option Error) (key : string) (w : Wire)
  : Wire * Completion string :=
  match get_try this fault key w with
  | (w', Return value) => (w', Return value)
  | (w', Throw error) => (w', Throw (get_catch key error))
  end.

(** One buffered operation of a batch. *)
Inductive Operation : Type :=
| put_op (key value : string)
| del_op (key : string).

Definition op_key (op : Operation) : string :=
  match op with
  | put_op k _ => k
  | del_op k => k
  end.

(** [getDB().batch()]: a fresh builder; its state is the array
    [operations] it closes over. *)
Definition batch : list Operation := [].

(** [put] and [del] push onto [operations] and return the builder. *)
Definition put (key value : string) (operations : list Operation) : list Operation :=
  operations ++ [put_op key value].

Definition del (key : string) (operations : list Operation) : list Operation :=
  operations ++ [del_op key].

(** The body of the [for] loop of [write]. *)
Definition queue (this : t) (pipeline : list Command) (op : Operation) : list Command :=
  let prefixedKey := prefixKey this (op_key op) in
  match op with
  | put_op _ value => pipeline ++ [SET prefixedKey value]
  | del_op _ => pipeline ++ [DEL prefixedKey]
  end.

(** [write]: returns the wire, the builder's buffer afterwards and the
    completion. *)
Definition write (this : t) (fault : option (nat * Error))
    (operations : list Operation) (w : Wire)
  : Wire * list Operation * Completion unit :=
  if (length operations =? 0)%nat then (w, operations, Return tt)
  else
    let w1 := record EvPipeline w in
    let pipeline := foldl (queue this) [] operations in
    match Client.exec fault pipeline w1 with
    | (w2, Throw e) => (w2, operations, Throw e)
    | (w2, Return _) => (w2, [], Return tt)
    end.

(** *** Construction and the singleton *)

Section Construction.

(** [Number(s)] on the value of an environment variable. *)
Variable Number : string -> number.

(** The configuration read from the environment when none is passed. *)
Definition envConfig (e : gmap string string) : RedisConfig :=
  {| host := or_else (e !! "REDIS_HOST") "localhost";
     port := Some (match e !! "REDIS_PORT" with
                   | Some s => if truthy_string s then Number s else Int 6379
                   | None => Int 6379
                   end);
     password := e !! "REDIS_PASSWORD" |}.

(** The options built by the constructor from the configuration. *)
Definition makeOptions (redisConfig : RedisConfig) : RedisOptions :=
  {| opt_host := host redisConfig;
     opt_lazyConnect := true;
     opt_showFriendlyErrorStack := true;
     opt_enableAutoPipelining := true;
     opt_maxRetriesPerRequest := 0;
     opt_port := match port redisConfig with
                 | Some n => if truthy_number n then Some n else None
                 | None => None
                 end;
     opt_password := match password redisConfig with
                     | Some s => if truthy_string s then Some s else None
                     | None => None
                     end |}.

(** The port the constructor announces: [redisConfig.port || 6379]. *)
Definition announcedPort (redisConfig : RedisConfig) : number :=
  or_number (port redisConfig) (Int 6379).

(** The constructor. *)
Definition construct (config : option RedisConfig) (rt : Runtime) : Runtime * t :=
  let redisConfig :=
    match config with
    | Some c => c
    | None => envConfig (env rt)
    end in
  let rt1 :=
    log "redisDBService:constructor"
        ("Connecting to Redis at " +:+ host redisConfig +:+ ":" +:+
         number_to_string (announcedPort redisConfig)) rt in
  (rt1, {| options := makeOptions redisConfig;
           isConnected := false;
           keyPrefix := defaultKeyPrefix |}).

(** The class: the objects it has constructed, by address, and the
    static field [_instance]. *)
Record Class := mkClass {
  objects : gmap nat t;
  _instance : option nat;
}.

(** [getInstance] *)
Definition getInstance (config : option RedisConfig) (rt : Runtime) (cls : Class)
  : Runtime * Class * nat :=
  match _instance cls with
  | Some a => (rt, cls, a)
  | None =>
      let '(rt1, o) := construct config rt in
      let a := fresh (dom (objects cls)) in
      (rt1, {| objects := <[a:=o]> (objects cls); _instance := Some a |}, a)
  end.

End Construction.

(** *** Connection life cycle *)

Definition set_isConnected (b : bool) (this : t) : t :=
  {| options := options this; isConnected := b; keyPrefix := keyPrefix this |}.

(** The handlers the constructor registers on the client. *)
Definition on_error (st : t * Runtime) : t * Runtime :=
  (st.1, log "redisDBService:error" "[Redis] Error connecting" st.2).

Definition on_connect (st : t * Runtime) : t * Runtime :=
  (st.1, log "redisDBService:connect" "[Redis] Client connecting..." st.2).

Definition on_ready (st : t * Runtime) : t * Runtime :=
  (set_isConnected true st.1, log "redisDBService:ready" "[Redis] Client ready" st.2).

Definition on_close (st : t * Runtime) : t * Runtime :=
  (set_isConnected false st.1,
   log "redisDBService:close" "[Redis] Client connection closed" st.2).

(** How a connection attempt stands. *)
Inductive Connection : Type :=
| Pending
| Ready
| Fatal (e : Error).

(** The client's connection loop.  [outcomes] tells for each successive
    attempt whether the server accepted it.  After the failure of attempt
    number [times] the client calls [retryStrategy times]: the delay it
    returns is slept (collected in [delays]) before the next attempt, and an
    exception it throws ends the loop. *)
Fixpoint reconnect (outcomes : list bool) (times : Z) (st : t * Runtime)
    (delays : list Z) : t * Runtime * list Z * Connection :=
  match outcomes with
  | [] => (st, delays, Pending)
  | true :: _ => (on_ready (on_connect st), delays, Ready)
  | false :: rest =>
      let st1 := on_close (on_error st) in
      match retryStrategy times with
      | Throw e => (st1, delays, Fatal e)
      | Return d => reconnect rest (times + 1) st1 (delays ++ [d])
      end
  end.

(** The error the promise of [client.connect()] rejects with when the
    connection closes before the client is ready. *)
Definition connectionClosed : Error := mkError (Some "Connection is closed.").

(** [client.connect()]: the promise settles with the first attempt.  It
    resolves when the client is ready and rejects when the connection closes;
    [None] is a promise that has not settled.  The attempts after a failure
    are the client's own ([reconnect], from attempt 1 on, whose first step is
    the one seen here); nothing awaits them. *)
Definition connect (outcomes : list bool) (st : t * Runtime)
  : t * Runtime * option (Completion unit) :=
  match outcomes with
  | [] => (st, None)
  | true :: _ => (on_ready (on_connect st), Some (Return tt))
  | false :: _ => (on_close (on_error st), Some (Throw connectionClosed))
  end.

(** [open]: the service, the runtime and the wire when the promise settles,
    and its completion. *)
Definition open (outcomes : list bool) (this : t) (rt : Runtime) (w : Wire)
  : t * Runtime * Wire * option (Completion unit) :=
  let rt1 := log "redisDBService:open" "Opening Redis connection..." rt in
  if negb (isConnected this) then
    match connect outcomes (this, rt1) with
    | (this', rt2, Some (Return _)) =>
        (this', log "redisDBService:open" "Redis connection opened" rt2,
         record EvConnect w, Some (Return tt))
    | (this', rt2, c) => (this', rt2, record EvConnect w, c)
    end
  else
    (this, log "redisDBService:open" "Redis connection opened" rt1, w, Some (Return tt)).

(** [client.quit()]: the client is asked to quit.  The [close] event of the
    client, which runs [on_close], arrives after the promise has resolved. *)
Definition quit (w : Wire) : Wire := record EvQuit w.

(** [close] *)
Definition close (this : t) (rt : Runtime) (w : Wire) : t * Runtime * Wire :=
  let rt1 := log "redisDBService:close" "Closing Redis connection..." rt in
  let w' := if isConnected this then quit w else w in
  (this, log "redisDBService:close" "Redis connection closed" rt1, w').

End RedisDBService.

(** ** [DBService], the storage facade *)

Module DBService.

Definition DEFAULT_DB_LOCATION : string := "./database".

(** The embedded store: a [Level] handle with the options it was created
    with.  [opened] is the state of its file handle. *)
Record Level := mkLevel {
  location : string;
  valueEncoding : string;
  createIfMissing : bool;
  errorIfExists : bool;
  opened : bool;
}.

(** The field [db]: a [Level] handle, or the object returned by
    [getDB()] of the Redis service at the given address. *)
Inductive Handle : Type :=
| LevelDB (l : Level)
| RedisDB (service : nat).

Record t := mkDBService {
  db : Handle;
  storageType : string;
  redisService : option nat;
}.

Record Class := mkClass {
  objects : gmap nat t;
  _instance : option nat;
}.

(** The state of the process the facade works on. *)
Record Process := mkProcess {
  runtime : Runtime;
  redis : RedisDBService.Class;
  service : Class;
}.

Section Construction.

Variable Number : string -> number.

(** The storage type chosen by the constructor. *)
Definition resolveStorageType (storageType : option string) (e : gmap string string)
  : string :=
  or_else (or_string storageType (e !! "STORAGE_TYPE")) "leveldb".

(** The constructor. *)
Definition construct (path storageType : option string)
    (redisConfig : option RedisDBService.RedisConfig) (p : Process) : Process * t :=
  let st := resolveStorageType storageType (env (runtime p)) in
  if String.eqb st "redis" then
    let rt1 := log "dbService:constructor" "Using Redis storage" (runtime p) in
    let config :=
      match redisConfig with
      | Some c => c
      | None => RedisDBService.envConfig Number (env rt1)
      end in
    let '(rt2, cls, a) := RedisDBService.getInstance Number (Some config) rt1 (redis p) in
    ({| runtime := rt2; redis := cls; service := service p |},
     {| db := RedisDB a; storageType := st; redisService := Some a |})
  else
    let rt1 :=
      log "dbService:constructor"
          ("Using LevelDB storage at " +:+ or_else path DEFAULT_DB_LOCATION)
          (runtime p) in
    ({| runtime := rt1; redis := redis p; service := service p |},
     {| db := LevelDB {| location := or_else path DEFAULT_DB_LOCATION;
                         valueEncoding := "json";
                         createIfMissing := true;
                         errorIfExists := false;
                         opened := false |};
        storageType := st;
        redisService := None |}).

(** [getInstance] *)
Definition getInstance (path storageType : option string)
    (redisConfig : option RedisDBService.RedisConfig) (p : Process) : Process * nat :=
  match _instance (service p) with
  | Some a => (p, a)
  | None =>
      let '(p1, o) := construct path storageType redisConfig p in
      let a := fresh (dom (objects (service p1))) in
      ({| runtime := runtime p1;
          redis := redis p1;
          service := {| objects := <[a:=o]> (objects (service p1));
                        _instance := Some a |} |}, a)
  end.

End Construction.

Section Lifecycle.

(** [open()] and [close()] of the [Level] handle, which are the library's:
    the handle afterwards and the completion of the call. *)
Variables levelOpen levelClose : Level -> Level * Completion unit.

(** What calling [open()] or [close()] on the object of [getDB()] of the
    Redis service throws: it has no such method. *)
Variable typeError : Error.

(** [close] of the facade on the object [this]; the Redis service it
    refers to is looked up in the objects of the Redis class. *)
Definition close (this : t) (p : Process) (w : Client.Wire)
  : t * Process * Client.Wire * Completion unit :=
  let rt1 :=
    log "dbService:close" ("Closing " +:+ storageType this +:+ " database...")
        (runtime p) in
  match (if String.eqb (storageType this) "redis" then redisService this else None) with
  | Some a =>
      match RedisDBService.objects (redis p) !! a with
      | Some r =>
          let '(r', rt2, w') := RedisDBService.close r rt1 w in
          (this,
           {| runtime := rt2;
              redis := {| RedisDBService.objects := <[a:=r']> (RedisDBService.objects (redis p));
                          RedisDBService._instance := RedisDBService._instance (redis p) |};
              service := service p |},
           w', Return tt)
      | None =>
          (this, {| runtime := rt1; redis := redis p; service := service p |}, w, Return tt)
      end
  | None =>
      match db this with
      | LevelDB l =>
          let '(l', c) := levelClose l in
          ({| db := LevelDB l'; storageType := storageType this;
              redisService := redisService this |},
           {| runtime := rt1; redis := redis p; service := service p |}, w, c)
      | RedisDB a =>
          (this, {| runtime := rt1; redis := redis p; service := service p |}, w,
           Throw typeError)
      end
  end.

(** [open] of the facade on the object [this]; [outcomes] are the outcomes of
    the connection attempts of the Redis client, should it connect. *)
Definition open (outcomes : list bool) (this : t) (p : Process) (w : Client.Wire)
  : t * Process * Client.Wire * option (Completion unit) :=
  let rt1 :=
    log "dbService:open" ("Opening " +:+ storageType this +:+ " database...")
        (runtime p) in
  match (if String.eqb (storageType this) "redis" then redisService this else None) with
  | Some a =>
      match RedisDBService.objects (redis p) !! a with
      | Some r =>
          let '(r', rt2, w', c) := RedisDBService.open outcomes r rt1 w in
          (this,
           {| runtime := rt2;
              redis := {| RedisDBService.objects := <[a:=r']> (RedisDBService.objects (redis p));
                          RedisDBService._instance := RedisDBService._instance (redis p) |};
              service := service p |},
           w', c)
      | None =>
          (this, {| runtime := rt1; redis := redis p; service := service p |}, w, None)
      end
  | None =>
      match db this with
      | LevelDB l =>
          let '(l', c) := levelOpen l in
          ({| db := LevelDB l'; storageType := storageType this;
              redisService := redisService this |},
           {| runtime := rt1; redis := redis p; service := service p |}, w, Some c)
      | RedisDB a =>
          (this, {| runtime := rt1; redis := redis p; service := service p |}, w,
           Some (Throw typeError))
      end
  end.

End Lifecycle.

(** [getDB] *)
Definition getDB (this : t) : Handle := db this.

End DBService.

(** ** Scenarios

    Definitions used to state the properties: what a batch does to the
    store, and sequences of calls. *)

Module Scenario.

Import Client RedisDBService.

(** The command [write] queues for an operation. *)
Definition command_of (this : t) (op : Operation) : Command :=
  match op with
  | put_op k v => SET (prefixKey this k) v
  | del_op k => DEL (prefixKey this k)
  end.

(** The effect of an operation on the remote store. *)
Definition apply_operation (this : t) (m : gmap string string) (op : Operation)
  : gmap string string :=
  apply_command m (command_of this op).

(** The commands of a pipeline that reach the store. *)
Definition delivered (fault : option (nat * Error)) (cs : list Command) : list Command :=
  match fault with
  | Some (n, _) => take n cs
  | None => cs
  end.

(** A chain of [put] and [del] calls on a builder. *)
Definition chain (ops : list Operation) (operations : list Operation) : list Operation :=
  foldl (fun b op => match op with
                     | put_op k v => put k v b
                     | del_op k => del k b
                     end) operations ops.

(** Batches written one after the other through fresh builders, each with
    the state of the transport at its [write]. *)
Definition write_all (this : t) (batches : list (option (nat * Error) * list Operation))
    (w : Wire) : Wire :=
  foldl (fun w b => (write this b.1 (chain b.2 batch) w).1.1) w batches.

(** Successive requests for the instance of the Redis service: the state
    afterwards and the addresses returned. *)
Fixpoint redis_requests (Number : string -> number) (configs : list (option RedisConfig))
    (rt : Runtime) (cls : RedisDBService.Class)
  : Runtime * RedisDBService.Class * list nat :=
  match configs with
  | [] => (rt, cls, [])
  | config :: rest =>
      let '(rt1, cls1, a) := RedisDBService.getInstance Number config rt cls in
      let '(rt2, cls2, l) := redis_requests Number rest rt1 cls1 in
      (rt2, cls2, a :: l)
  end.

(** The arguments of one request for the instance of the facade. *)
Record Request := mkRequest {
  req_path : option string;
  req_storageType : option string;
  req_redisConfig : option RedisConfig;
}.

(** Successive requests for the instance of the facade. *)
Fixpoint requests (Number : string -> number) (reqs : list Request) (p : DBService.Process)
  : DBService.Process * list nat :=
  match reqs with
  | [] => (p, [])
  | r :: rest =>
      let '(p1, a) :=
        DBService.getInstance Number (req_path r) (req_storageType r)
                              (req_redisConfig r) p in
      let '(p2, l) := requests Number rest p1 in
      (p2, a :: l)
  end.

(** A connected service with the prefix of the source, and a process that
    has constructed nothing yet. *)
Definition service0 : t :=
  mkService (makeOptions (mkRedisConfig "localhost" None None)) true defaultKeyPrefix.

Definition process0 (e : gmap string string) : DBService.Process :=
  {| DBService.runtime := mkRuntime e [];
     DBService.redis := RedisDBService.mkClass ∅ None;
     DBService.service := DBService.mkClass ∅ None |}.

End Scenario.

Import Scenario.

(** ** JavaScript [Map] and helpers on strings *)

Module JsMap.

Section WithValue.

Context {V : Type}.

(** A [Map<string, V>]: its entries in insertion order; no key occurs
    twice. *)
Definition t : Type := list (string * V).

(** [map.set(k, v)]: a key that is present keeps its place and takes the new
    value; a new key is added at the end. *)
Fixpoint Map_set (k : string) (v : V) (m : list (string * V)) : list (string * V) :=
  match m with
  | [] => [(k, v)]
  | (k', v') :: m' =>
      if String.eqb k' k then (k', v) :: m' else (k', v') :: Map_set k v m'
  end.

(** [map.get(k)] *)
Fixpoint Map_get (k : string) (m : list (string * V)) : option V :=
  match m with
  | [] => None
  | (k', v') :: m' => if String.eqb k' k then Some v' else Map_get k m'
  end.

(** [new Map(entries)]: the entries are set one after the other. *)
Definition Map_new (entries : list (string * V)) : list (string * V) :=
  foldl (fun m kv => Map_set kv.1 kv.2 m) [] entries.

End WithValue.

End JsMap.

(** The ASCII part of [toLowerCase], [toUpperCase] and [trim], for examples:
    on strings of ASCII characters they are what JavaScript computes. *)
Module Ascii7.

Definition lower_char (c : Ascii.ascii) : Ascii.ascii :=
  let n := Ascii.nat_of_ascii c in
  if ((65 <=? n) && (n <=? 90))%nat then Ascii.ascii_of_nat (n + 32) else c.

Definition upper_char (c : Ascii.ascii) : Ascii.ascii :=
  let n := Ascii.nat_of_ascii c in
  if ((97 <=? n) && (n <=? 122))%nat then Ascii.ascii_of_nat (n - 32) else c.

Fixpoint map_string (f : Ascii.ascii -> Ascii.ascii) (s : string) : string :=
  match s with
  | EmptyString => EmptyString
  | String c s' => String (f c) (map_string f s')
  end.

Definition toLowerCase : string -> string := map_string lower_char.

Definition toUpperCase : string -> string := map_string upper_char.

Definition is_space (c : Ascii.ascii) : bool :=
  let n := Ascii.nat_of_ascii c in
  ((9 <=? n) && (n <=? 13) || (n =? 32))%nat.

Fixpoint trim_start (s : string) : string :=
  match s with
  | EmptyString => EmptyString
  | String c s' => if is_space c then trim_start s' else s
  end.

Definition trim (s : string) : string :=
  String.rev (trim_start (String.rev (trim_start s))).

(** The integer that the double nearest to [z >= 0] holds (ties to the even
    significand of 53 bits), or [None] above the largest double. *)
Definition round_double (z : Z) : option Z :=
  let k := Z.log2 z - 52 in
  if k <=? 0 then Some z
  else
    let q := Z.shiftr z k in
    let r := Z.land z (Z.ones k) in
    let half := Z.shiftl 1 (k - 1) in
    let q' := if (half <? r) || ((half =? r) && Z.odd q) then q + 1 else q in
    let z' := Z.shiftl q' k in
    if 2 ^ 1024 <=? z' then None else Some z'.

(** [parseInt(s, 10)] on a string of ASCII characters: leading white space
    and a sign are skipped, then the longest run of digits is read, and the
    integer they write is rounded to a double. *)
Fixpoint digits (s : string) (acc : option Z) : option Z :=
  match s with
  | EmptyString => acc
  | String c s' =>
      let n := Ascii.nat_of_ascii c in
      if ((48 <=? n) && (n <=? 57))%nat
      then digits s' (Some (10 * default 0 acc + Z.of_nat (n - 48)))
      else acc
  end.

Definition parseInt (s : string) : number :=
  let of_digits (negative : bool) (s' : string) :=
    match digits s' None with
    | Some z =>
        match round_double z with
        | Some z' => Int (if negative then - z' else z')
        | None => Infinity negative
        end
    | None => NaN
    end in
  match trim_start s with
  | EmptyString => NaN
  | String c s' =>
      if (Ascii.nat_of_ascii c =? 45)%nat then of_digits true s'
      else if (Ascii.nat_of_ascii c =? 43)%nat then of_digits false s'
      else of_digits false (String c s')
  end.

End Ascii7.

(** ** [FilterPolicy]

    The class of [domain/polling/filtering/policy.ts].  The names of the
    actions in the configuration are those of the enumeration, so
    [FilterAction[value]] is [value]; the built-in [toLowerCase] is a
    parameter. *)

Module FilterPolicy.

Import JsMap.

Inductive FilterAction : Type :=
| DROP
| SKIP
| ACCEPT.

(** An object [{ [k: string]: FilterAction }], given by its entries in the
    order [Object.entries] lists them. *)
Definition ActionsObject : Type := list (string * FilterAction).

(** The [filterPolicy] of a network in the configuration. *)
Record PolicyInput := mkPolicyInput {
  in_defaultAction : FilterAction;
  in_owners : option ActionsObject;
  in_handlers : option ActionsObject;
  in_transactions : option ActionsObject;
  in_conditionalOrderIds : option ActionsObject;
}.

Record PolicyConfig := mkPolicyConfig {
  defaultAction : FilterAction;
  owners : list (string * FilterAction);
  handlers : list (string * FilterAction);
  transactions : list (string * FilterAction);
  conditionalOrderIds : list (string * FilterAction);
}.

Record t := mkFilterPolicy {
  config : option PolicyConfig;
}.

Record ConditionalOrderParams := mkConditionalOrderParams {
  handler : string;
  salt : string;
  staticInput : string;
}.

Record FilterParams := mkFilterParams {
  conditionalOrderId : string;
  transaction : string;
  owner : string;
  conditionalOrderParams : ConditionalOrderParams;
}.

(** What [toJSON] returns. *)
Record PolicyJSON := mkPolicyJSON {
  json_defaultAction : option FilterAction;
  json_owners : ActionsObject;
  json_handlers : ActionsObject;
  json_transactions : ActionsObject;
  json_conditionalOrderIds : ActionsObject;
}.

(** [a || b] on optional actions: every action is a non-empty string, so
    only [undefined] is falsy. *)
Definition or_action (a b : option FilterAction) : option FilterAction :=
  match a with
  | Some x => Some x
  | None => b
  end.

Section WithLower.

Variable toLowerCase : string -> string.

(** [normalizeAddress], and the two other normalizers of the constructor,
    which have the same body: [value ? value.toLowerCase() : value]. *)
Definition normalizeAddress (value : string) : option string :=
  Some (if truthy_string value then toLowerCase value else value).

(** [convertToMap] *)
Definition convertToMap (object : option ActionsObject)
    (normalizer : string -> option string) : list (string * FilterAction) :=
  match object with
  | Some o => Map_new (map (fun kv => (default kv.1 (normalizer kv.1), kv.2)) o)
  | None => []
  end.

(** The constructor. *)
Definition construct (c : PolicyInput) : t :=
  {| config :=
       Some {| defaultAction := in_defaultAction c;
               owners := convertToMap (in_owners c) normalizeAddress;
               handlers := convertToMap (in_handlers c) normalizeAddress;
               transactions := convertToMap (in_transactions c) normalizeAddress;
               conditionalOrderIds :=
                 convertToMap (in_conditionalOrderIds c) normalizeAddress |} |}.

(** [preFilter] *)
Definition preFilter (this : t) (p : FilterParams) : FilterAction :=
  match config this with
  | None => ACCEPT
  | Some cfg =>
      let normalizedProgrammaticOrderId := toLowerCase (conditionalOrderId p) in
      let normalizedTransaction := toLowerCase (transaction p) in
      let normalizedOwner := toLowerCase (owner p) in
      let normalizedHandler := toLowerCase (handler (conditionalOrderParams p)) in
      let action :=
        or_action (Map_get normalizedProgrammaticOrderId (conditionalOrderIds cfg))
          (or_action (Map_get normalizedTransaction (transactions cfg))
             (or_action (Map_get normalizedOwner (owners cfg))
                (Map_get normalizedHandler (handlers cfg)))) in
      match action with
      | Some a => a
      | None => defaultAction cfg
      end
  end.

End WithLower.

(** [convertMapToObject] *)
Definition convertMapToObject (m : option (list (string * FilterAction))) : ActionsObject :=
  match m with
  | Some entries => entries
  | None => []
  end.

(** [toJSON] *)
Definition toJSON (this : t) : PolicyJSON :=
  {| json_defaultAction := defaultAction <$> config this;
     json_owners := convertMapToObject (owners <$> config this);
     json_handlers := convertMapToObject (handlers <$> config this);
     json_transactions := convertMapToObject (transactions <$> config this);
     json_conditionalOrderIds :=
       convertMapToObject (conditionalOrderIds <$> config this) |}.

(** The rule of an object for a normalized key: the action of the last entry
    whose key, normalized, is that key. *)
Definition rule (toLowerCase : string -> string) (object : option ActionsObject)
    (q : string) : option FilterAction :=
  match object with
  | Some o =>
      snd <$> last (filter (fun kv => default kv.1 (normalizeAddress toLowerCase kv.1) = q) o)
  | None => None
  end.

(** Two objects with the same rules up to the case of their keys: entry by
    entry, the keys normalize to the same string and the actions are the
    same. *)
Definition same_rules (toLowerCase : string -> string) (o o' : option ActionsObject)
  : Prop :=
  option_Forall2
    (Forall2 (fun kv kv' =>
                default kv.1 (normalizeAddress toLowerCase kv.1) =
                  default kv'.1 (normalizeAddress toLowerCase kv'.1) /\
                kv.2 = kv'.2)) o o'.

(** An object whose keys are distinct and already normalized. *)
Definition normalized_object (toLowerCase : string -> string) (o : option ActionsObject)
  : Prop :=
  match o with
  | Some entries =>
      NoDup (map fst entries) /\
      Forall (fun kv => default kv.1 (normalizeAddress toLowerCase kv.1) = kv.1) entries
  | None => True
  end.

End FilterPolicy.

(** ** [scripts/generate-config.ts]

    The functions of the generator up to [generateConfig]; [process.env] is an
    argument.  The built-in [toLowerCase], [toUpperCase], [trim], [parseInt]
    (radix 10), [Number] and [length] of a string are parameters: what is
    proved holds for whatever they compute.  So are the numbers [parseInt]
    returns, with [isNaN], the comparison [<= 0] and the literal [1]: nothing
    is assumed about them. *)

Module GenerateConfig.

Import FilterPolicy.

(** Sequencing of calls that may throw. *)
Definition bind {A B : Type} (c : Completion A) (k : A -> Completion B) : Completion B :=
  match c with
  | Return a => k a
  | Throw e => Throw e
  end.

Notation "x <- c ;; k" := (bind c (fun x => k))
  (at level 62, c at next level, right associativity).

(** [array.map(f)] for an [f] that may throw: the first exception ends the
    loop. *)
Fixpoint map_throw {A B : Type} (f : A -> Completion B) (l : list A)
  : Completion (list B) :=
  match l with
  | [] => Return []
  | x :: rest =>
      y <- f x ;;
      ys <- map_throw f rest ;;
      Return (y :: ys)
  end.

(** [s.split(",")] *)
Fixpoint split_comma (s : string) : list string :=
  match s with
  | EmptyString => [EmptyString]
  | String c s' =>
      if (Ascii.nat_of_ascii c =? 44)%nat then EmptyString :: split_comma s'
      else match split_comma s' with
           | part :: parts => String c part :: parts
           | [] => [String c EmptyString]
           end
  end.

(** [isNaN(n)] and [n <= 0] on the numbers that [parseInt] returns, for
    examples; a comparison with [NaN] is false. *)
Definition number_isNaN (n : number) : bool :=
  match n with
  | NaN => true
  | Int _ => false
  | Infinity _ => false
  end.

Definition number_le_zero (n : number) : bool :=
  match n with
  | NaN => false
  | Int z => z <=? 0
  | Infinity negative => negative
  end.

Record NetworkFilterPolicy := mkNetworkFilterPolicy {
  defaultAction : FilterAction;
  handlers : option ActionsObject;
}.

Record StorageConfig := mkStorageConfig {
  type : string;
  redis : option RedisDBService.RedisConfig;
}.

Definition missingVariable (name : string) : Error :=
  mkError (Some ("Missing required environment variable: " +:+ name +:+
                 ". Please check your .env file.")).

(** [validateEnvVar] *)
Definition validateEnvVar (name : string) (e : gmap string string) : Completion string :=
  match e !! name with
  | Some value => if truthy_string value then Return value else Throw (missingVariable name)
  | None => Throw (missingVariable name)
  end.

Section WithBuiltins.

(** The numbers of JavaScript that [parseInt] returns, [isNaN(n)], [n <= 0]
    and the literal [1]. *)
Context {num : Type}.
Variables isNaN le_zero : num -> bool.
Variable one : num.

Variables toLowerCase toUpperCase trim : string -> string.
Variable parseInt : string -> num.

(** [s.length] *)
Variable jsLength : string -> nat.

Variable Number : string -> number.

Record NetworkConfig := mkNetworkConfig {
  name : string;
  rpc : string;
  deploymentBlock : num;
  processEveryNumBlocks : option num;
  keepExpiredOrders : option bool;
  pollingIntervalSeconds : option num;
  filterPolicy : NetworkFilterPolicy;
}.

Record Config := mkConfig {
  storage : option StorageConfig;
  networks : list NetworkConfig;
}.

(** [validateAddress] *)
Definition validateAddress (address name : string) : Completion string :=
  if negb (String.prefix "0x" address) || negb (jsLength address =? 42)%nat then
    Throw (mkError (Some ("Invalid " +:+ name +:+
                          " address format. Expected 0x-prefixed 42 character address, got: "
                          +:+ address)))
  else Return (toLowerCase address).

(** [parsePositiveIntegerEnv] *)
Definition parsePositiveIntegerEnv (name : string) (defaultValue : option num)
    (e : gmap string string) : Completion num :=
  let byDefault :=
    match defaultValue with
    | None => Throw (missingVariable name)
    | Some d => Return d
    end in
  match e !! name with
  | None => byDefault
  | Some EmptyString => byDefault
  | Some value =>
      let parsed := parseInt value in
      if isNaN parsed || le_zero parsed then
        Throw (mkError (Some (name +:+ " must be a positive integer, got: " +:+ value)))
      else Return parsed
  end.

(** [parseNetworkConfig] *)
Definition parseNetworkConfig (networkName : string) (e : gmap string string)
  : Completion NetworkConfig :=
  let normalizedName := trim (toLowerCase networkName) in
  let prefix := toUpperCase normalizedName in
  rpc <- validateEnvVar (prefix +:+ "_RPC_URL") e ;;
  deploymentBlock <- parsePositiveIntegerEnv (prefix +:+ "_DEPLOYMENT_BLOCK") None e ;;
  rawAddress <- validateEnvVar (prefix +:+ "_HANDLER_ADDRESS") e ;;
  handlerAddress <- validateAddress rawAddress (prefix +:+ "_HANDLER_ADDRESS") ;;
  processEveryNumBlocks <-
    parsePositiveIntegerEnv (prefix +:+ "_BLOCK_POLLING_RATE") (Some one) e ;;
  let keepExpiredOrders :=
    match e !! (prefix +:+ "_KEEP_EXPIRED_ORDERS") with
    | None => true
    | Some v => String.eqb (toLowerCase v) "true"
    end in
  pollingIntervalSeconds <-
    match e !! (prefix +:+ "_POLLING_INTERVAL_SECONDS") with
    | Some v =>
        if truthy_string v then
          n <- parsePositiveIntegerEnv (prefix +:+ "_POLLING_INTERVAL_SECONDS") None e ;;
          Return (Some n)
        else Return None
    | None => Return None
    end ;;
  Return {| name := normalizedName;
            rpc := rpc;
            deploymentBlock := deploymentBlock;
            processEveryNumBlocks := Some processEveryNumBlocks;
            keepExpiredOrders := Some keepExpiredOrders;
            pollingIntervalSeconds := pollingIntervalSeconds;
            filterPolicy := {| defaultAction := DROP;
                               handlers := Some [(handlerAddress, ACCEPT)] |} |}.

(** The names of the networks [generateConfig] reads from [NETWORKS]. *)
Definition networkNames (e : gmap string string) : list string :=
  let networksEnv := or_else (e !! "NETWORKS") "base" in
  List.filter (fun n => (0 <? String.length n)%nat) (map trim (split_comma networksEnv)).

(** The storage section [generateConfig] builds, after its clean-up of an
    empty password. *)
Definition storageConfig (e : gmap string string) : option StorageConfig :=
  let storageType := or_else (e !! "STORAGE_TYPE") "leveldb" in
  if String.eqb storageType "redis" then
    let password := or_string (e !! "REDIS_PASSWORD") None in
    Some {| type := "redis";
            redis :=
              Some {| RedisDBService.host := or_else (e !! "REDIS_HOST") "localhost";
                      RedisDBService.port :=
                        Some (match e !! "REDIS_PORT" with
                              | Some s => if truthy_string s then Number s else Int 6379
                              | None => Int 6379
                              end);
                      RedisDBService.password :=
                        match password with
                        | Some s => if truthy_string s then Some s else None
                        | None => None
                        end |} |}
  else None.

(** The error [generateConfig] throws for a network that does not parse. *)
Definition networkFailure (networkName : string) (error : Error) : Error :=
  mkError (Some ("Failed to parse configuration for network '" +:+ networkName +:+
                 "': " +:+ interpolate (message error))).

(** [generateConfig] *)
Definition generateConfig (e : gmap string string) : Completion Config :=
  let names := networkNames e in
  if (length names =? 0)%nat then
    Throw (mkError (Some "NETWORKS environment variable is empty or invalid. Expected comma-separated list (e.g., 'base,mainnet')"))
  else
    networks <-
      map_throw (fun networkName =>
                   match parseNetworkConfig networkName e with
                   | Return c => Return c
                   | Throw error => Throw (networkFailure networkName error)
                   end) names ;;
    Return {| storage := storageConfig e; networks := networks |}.

End WithBuiltins.

(** The filter policy of a generated network as the constructor of
    [FilterPolicy] receives it: the objects the generator does not write are
    absent. *)
Definition policyInput (fp : NetworkFilterPolicy) : PolicyInput :=
  {| in_defaultAction := defaultAction fp;
     in_owners := None;
     in_handlers := handlers fp;
     in_transactions := None;
     in_conditionalOrderIds := None |}.

End GenerateConfig.

(** ** An environment and a network, for examples *)

Module Fixture.

Definition env0 : gmap string string :=
  {[ "BASE_RPC_URL" := "https://rpc.example";
     "BASE_DEPLOYMENT_BLOCK" := "1200";
     "BASE_HANDLER_ADDRESS" := "0xABCDEFabcdef0123456789ABCDEFabcdef012345" ]}.

Definition network0 : GenerateConfig.NetworkConfig (num := number) :=
  {| GenerateConfig.name := "base";
     GenerateConfig.rpc := "https://rpc.example";
     GenerateConfig.deploymentBlock := Int 1200;
     GenerateConfig.processEveryNumBlocks := Some (Int 1);
     GenerateConfig.keepExpiredOrders := Some true;
     GenerateConfig.pollingIntervalSeconds := None;
     GenerateConfig.filterPolicy :=
       {| GenerateConfig.defaultAction := FilterPolicy.DROP;
          GenerateConfig.handlers :=
            Some [("0xabcdefabcdef0123456789abcdefabcdef012345", FilterPolicy.ACCEPT)] |} |}.

Definition params0 (handler : string) : FilterPolicy.FilterParams :=
  FilterPolicy.mkFilterParams "0x1d" "0x7a" "0x0123"
    (FilterPolicy.mkConditionalOrderParams handler "0x5a17" "0x").

End Fixture.

(** ** The orders routes of [ApiService]

    The two handlers of [ordersRoute], as functions from the chain contexts
    of the service and the parameters of the request to the answer.  Order
    uids are strings, as the type of the registry says.  The [catch] branch of
    a handler answers 500 with the message of what was thrown.  The path
    parameters are strings, and on a registry of the types below the loops
    throw nothing; the query parameter [handler] is whatever the query parser
    made of the query string, and calling [toLowerCase] on an array or an
    object throws the [TypeError] of the engine, which is a parameter. *)

Module OrdersRoute.

(** [pollResult] of a conditional order; [result] is passed on as it is. *)
Record PollResult := mkPollResult {
  lastExecutionTimestamp : Z;
  blockNumber : Z;
  result : string;
}.

(** A conditional order of the registry.  [proof] is passed on as it is;
    [orders] is the [Map] from order uid to status. *)
Record ConditionalOrder := mkConditionalOrder {
  id : string;
  tx : string;
  params : FilterPolicy.ConditionalOrderParams;
  proof : string;
  composableCow : string;
  orders : list (string * Z);
  pollResult : option PollResult;
}.

(** The registry: [ownerOrders] is the [Map] from owner to the [Set] of its
    conditional orders, both in insertion order. *)
Record Registry := mkRegistry {
  ownerOrders : list (string * list ConditionalOrder);
  lastProcessedBlock : option string;
}.

Record ChainContext := mkChainContext {
  chainId : Z;
  registry : Registry;
}.

Record OrderJSON := mkOrderJSON {
  orderUid : string;
  status : string;
}.

Record ConditionalOrderJSON := mkConditionalOrderJSON {
  json_id : string;
  json_tx : string;
  json_params : FilterPolicy.ConditionalOrderParams;
  json_proof : string;
  json_composableCow : string;
  json_orders : list OrderJSON;
  json_pollResult : option PollResult;
}.

Record FilteredOrder := mkFilteredOrder {
  owner : string;
  conditionalOrder : ConditionalOrderJSON;
}.

(** The body of the answer of [GET /orders/:chainId]. *)
Record OrdersBody := mkOrdersBody {
  body_chainId : string;
  totalOrders : nat;
  totalOrdersInRegistry : nat;
  allHandlersFound : list string;
  requestedHandler : option string;
  body_lastProcessedBlock : option string;
  body_orders : list FilteredOrder;
}.

(** A value of [req.query]: a string, or, for a parameter that is repeated
    or written with brackets, an array or an object of such values. *)
#[local] Unset Elimination Schemes.
Inductive QueryValue : Type :=
| QString (s : string)
| QArray (items : list QueryValue)
| QObject (fields : list (string * QueryValue)).
#[local] Set Elimination Schemes.

(** The answers: 200 with a listing or with one order, 404 and 500 with an
    error text. *)
Inductive Response : Type :=
| Orders (body : OrdersBody)
| Order (chain : string) (orderOwner : string) (order : ConditionalOrderJSON)
| NotFound (error : string)
| ServerError (error : string).

(** The name of a status. *)
Definition statusName (s : Z) : string :=
  if s =? 1 then "SUBMITTED" else if s =? 2 then "FILLED" else "UNKNOWN".

(** [ordersArray] *)
Definition ordersArray (c : ConditionalOrder) : list OrderJSON :=
  map (fun entry => {| orderUid := entry.1; status := statusName entry.2 |}) (orders c).

(** The object sent for a conditional order. *)
Definition orderJSON (c : ConditionalOrder) : ConditionalOrderJSON :=
  {| json_id := id c;
     json_tx := tx c;
     json_params := params c;
     json_proof := proof c;
     json_composableCow := composableCow c;
     json_orders := ordersArray c;
     json_pollResult := pollResult c |}.

(** [set.add(x)] on a [Set<string>] in insertion order. *)
Definition Set_add (x : string) (s : list string) : list string :=
  if existsb (String.eqb x) s then s else s ++ [x].

(** [contexts.find(ctx => ctx.chainId.toString() === chainId)] *)
Definition findChain (contexts : list ChainContext) (chain : string) : option ChainContext :=
  List.find (fun ctx => String.eqb (pretty (chainId ctx)) chain) contexts.

(** The variables of the loops of the listing. *)
Record Loop := mkLoop {
  allHandlers : list string;
  total : nat;
  filteredOrders : list FilteredOrder;
}.

Section WithLower.

Variable toLowerCase : string -> string.
Variable typeError : Error.

(** [handler ? (handler as string).toLowerCase() : null]: the cast checks
    nothing; an array or an object is truthy and has no method
    [toLowerCase]. *)
Definition lowerOrNull (handler : option QueryValue) : Completion (option string) :=
  match handler with
  | None => Return None
  | Some (QString h) => Return (if truthy_string h then Some (toLowerCase h) else None)
  | Some (QArray _) => Throw typeError
  | Some (QObject _) => Throw typeError
  end.

(** [handlerFilter && orderHandler !== handlerFilter] *)
Definition filteredOut (handlerFilter : option string) (orderHandler : string) : bool :=
  match handlerFilter with
  | Some f => truthy_string f && negb (String.eqb orderHandler f)
  | None => false
  end.

(** The body of the inner loop of the listing. *)
Definition visitOrder (handlerFilter : option string) (orderOwner : string)
    (st : Loop) (c : ConditionalOrder) : Loop :=
  let orderHandler := toLowerCase (FilterPolicy.handler (params c)) in
  let handlers' := Set_add orderHandler (allHandlers st) in
  if filteredOut handlerFilter orderHandler then
    {| allHandlers := handlers'; total := total st; filteredOrders := filteredOrders st |}
  else
    {| allHandlers := handlers';
       total := total st;
       filteredOrders :=
         filteredOrders st ++ [{| owner := orderOwner; conditionalOrder := orderJSON c |}] |}.

(** The body of the outer loop of the listing. *)
Definition visitOwner (handlerFilter : option string) (st : Loop)
    (entry : string * list ConditionalOrder) : Loop :=
  let st1 := {| allHandlers := allHandlers st;
                total := (total st + length entry.2)%nat;
                filteredOrders := filteredOrders st |} in
  foldl (visitOrder handlerFilter entry.1) st1 entry.2.

(** The [try] block of [GET /orders/:chainId] once the chain is found. *)
Definition listOrders_try (chainContext : ChainContext) (chain : string)
    (handler : option QueryValue) : Completion Response :=
  match lowerOrNull handler with
  | Throw err => Throw err
  | Return handlerFilter =>
      let st := foldl (visitOwner handlerFilter) (mkLoop [] 0 [])
                      (ownerOrders (registry chainContext)) in
      match lowerOrNull handler with
      | Throw err => Throw err
      | Return requested =>
          Return (Orders {| body_chainId := chain;
                            totalOrders := length (filteredOrders st);
                            totalOrdersInRegistry := total st;
                            allHandlersFound := allHandlers st;
                            requestedHandler := requested;
                            body_lastProcessedBlock :=
                              lastProcessedBlock (registry chainContext);
                            body_orders := filteredOrders st |})
      end
  end.

(** The [catch] block of both routes. *)
Definition route_catch (err : Error) : Response :=
  ServerError (or_else (message err) "Internal server error").

(** The handler of [GET /orders/:chainId], with the query parameter
    [handler]. *)
Definition listOrders (contexts : list ChainContext) (chain : string)
    (handler : option QueryValue) : Response :=
  match findChain contexts chain with
  | None => NotFound ("Chain " +:+ chain +:+ " not found")
  | Some chainContext =>
      match listOrders_try chainContext chain handler with
      | Return response => response
      | Throw err => route_catch err
      end
  end.

(** The loops of [GET /orders/:chainId/:orderId]: the first conditional
    order, owner by owner, whose id is the one asked for, in lower case. *)
Fixpoint findOrder (orderId : string) (entries : list (string * list ConditionalOrder))
  : option (string * ConditionalOrder) :=
  match entries with
  | [] => None
  | (orderOwner, conditionalOrders) :: rest =>
      match List.find (fun c => String.eqb (toLowerCase (id c)) (toLowerCase orderId))
                      conditionalOrders with
      | Some c => Some (orderOwner, c)
      | None => findOrder orderId rest
      end
  end.

(** The handler of [GET /orders/:chainId/:orderId]. *)
Definition getOrder (contexts : list ChainContext) (chain orderId : string) : Response :=
  match findChain contexts chain with
  | None => NotFound ("Chain " +:+ chain +:+ " not found")
  | Some chainContext =>
      match findOrder orderId (ownerOrders (registry chainContext)) with
      | Some (orderOwner, c) => Order chain orderOwner (orderJSON c)
      | None => NotFound ("Conditional order " +:+ orderId +:+ " not found")
      end
  end.

End WithLower.

(** All conditional orders of a registry with their owners, in the order the
    loops visit them. *)
Definition allOrders (r : Registry) : list (string * ConditionalOrder) :=
  concat (map (fun entry => map (pair entry.1) entry.2) (ownerOrders r)).

(** Whether the listing keeps an order, given the handler filter. *)
Definition kept (toLowerCase : string -> string) (handlerFilter : option string)
    (oc : string * ConditionalOrder) : bool :=
  negb (filteredOut handlerFilter (toLowerCase (FilterPolicy.handler (params oc.2)))).

(** The entry of the listing for an order and its owner. *)
Definition entryJSON (oc : string * ConditionalOrder) : FilteredOrder :=
  {| owner := oc.1; conditionalOrder := orderJSON oc.2 |}.

(** The handlers of some orders, in lower case, added to a set. *)
Definition addHandlers (toLowerCase : string -> string) (s : list string)
    (ocs : list (string * ConditionalOrder)) : list string :=
  foldl (fun s oc => Set_add (toLowerCase (FilterPolicy.handler (params oc.2))) s) s ocs.

End OrdersRoute.

(** ** A registry, for examples *)

Module RouteFixture.

Definition order0 (id handler : string) : OrdersRoute.ConditionalOrder :=
  OrdersRoute.mkConditionalOrder id "0x7a"
    (FilterPolicy.mkConditionalOrderParams handler "0x5a17" "0x") "[]" "0xc0"
    [("0xu1", 1); ("0xu2", 2); ("0xu3", 3)] None.

Definition registry0 : OrdersRoute.Registry :=
  OrdersRoute.mkRegistry
    [("0xowner1", [order0 "0xA1" "0xAA"; order0 "0xB2" "0xbb"]);
     ("0xowner2", [order0 "0xc3" "0xaa"])]
    None.

Definition contexts0 : list OrdersRoute.ChainContext :=
  [OrdersRoute.mkChainContext 1 (OrdersRoute.mkRegistry [] None);
   OrdersRoute.mkChainContext 8453 registry0].

End RouteFixture.

(** * Properties *)

(** ** Facts about strings *)

Section Strings.

Lemma append_cons (x : Ascii.ascii) (a b : string) :
  String x a +:+ b = String x (a +:+ b).
Proof. reflexivity. Qed.

Lemma append_nil (b : string) : "" +:+ b = b.
Proof. reflexivity. Qed.

Lemma length_append (a b : string) :
  String.length (a +:+ b) = (String.length a + String.length b)%nat.
Proof.
  induction a as [|c a IH]; [reflexivity |].
  rewrite append_cons. simpl. now rewrite IH.
Qed.

Lemma append_assoc (a b c : string) : (a +:+ b) +:+ c = a +:+ (b +:+ c).
Proof.
  induction a as [|x a IH]; [reflexivity |].
  rewrite !append_cons. now f_equal.
Qed.

Lemma append_empty_r (a : string) : a +:+ "" = a.
Proof.
  induction a as [|x a IH]; [reflexivity |].
  rewrite append_cons. now f_equal.
Qed.

(** [String.prefix p s] holds exactly when [s] starts with [p]. *)
Lemma prefix_spec (p s : string) :
  String.prefix p s = true <-> exists t, s = p +:+ t.
Proof.
  revert s. induction p as [|c p IH]; intros s.
  - destruct s; simpl; split; eauto.
  - destruct s as [|d s]; simpl.
    + split; [discriminate | intros [t Ht]; discriminate].
    + destruct (Ascii.ascii_dec c d) as [->|Hne].
      * rewrite IH. split; intros [t Ht]; exists t.
        -- rewrite append_cons. congruence.
        -- rewrite append_cons in Ht. congruence.
      * split; [discriminate |].
        intros [t Ht]. rewrite append_cons in Ht. congruence.
Qed.

Lemma prefix_append (p k : string) : String.prefix p (p +:+ k) = true.
Proof. apply prefix_spec. eauto. Qed.

(** [includes s needle] holds exactly when [needle] is a substring of [s]. *)
Lemma includes_spec (s needle : string) :
  includes s needle = true <-> exists a b, s = a +:+ needle +:+ b.
Proof.
  induction s as [|c s IH]; cbn [includes].
  - rewrite orb_false_r, prefix_spec. split.
    + intros [t Ht]. exists "", t. exact Ht.
    + intros [[|x a] [b Hb]]; [eauto | discriminate].
  - rewrite orb_true_iff, prefix_spec, IH. split.
    + intros [[t Ht] | (a & b & Hab)].
      * exists "", t. exact Ht.
      * exists (String c a), b. rewrite append_cons. now rewrite Hab.
    + intros ([|x a] & b & Hab).
      * left. eauto.
      * right. exists a, b. rewrite append_cons in Hab. congruence.
Qed.

(** Appending the same suffix to two different strings gives different
    strings. *)
Lemma append_inj_l (a b k : string) : a +:+ k = b +:+ k -> a = b.
Proof.
  revert b. induction a as [|x a IH]; intros [|y b] H.
  - reflexivity.
  - apply (f_equal String.length) in H.
    rewrite append_nil, append_cons in H. simpl in H.
    rewrite length_append in H. lia.
  - apply (f_equal String.length) in H.
    rewrite append_nil, append_cons in H. simpl in H.
    rewrite length_append in H. lia.
  - rewrite !append_cons in H. injection H as -> H. f_equal. now apply IH.
Qed.

End Strings.

(** ** Connection retry *)

Section Retry.

Import RedisDBService.

Lemma retryStrategy_within (times : Z) :
  times <= 3 -> retryStrategy times = Return (Z.min (times * 200) 1000).
Proof.
  intros H. unfold retryStrategy.
  destruct (Z.gtb_spec times 3) as [Hgt|_]; [lia | reflexivity].
Qed.

Lemma retryStrategy_beyond (times : Z) :
  3 < times ->
  retryStrategy times =
    Throw (mkError (Some ("[Redis] Could not connect after " +:+ pretty times +:+
                          " attempts"))).
Proof.
  intros H. unfold retryStrategy.
  destruct (Z.gtb_spec times 3) as [_|Hle]; [reflexivity | lia].
Qed.

(** C1. After a failed attempt number [attempt <= 3] the delay before the
    next attempt is [min (attempt * 200) 1000] milliseconds; for every
    attempt number above 3 the retry strategy throws, which ends the
    connection loop of the client.  In that loop, a service whose first two
    attempts fail and whose third succeeds ends connected, after delays of
    200 and 400 ms; one whose first four attempts fail ends with the fatal
    error and is not connected, whatever would have happened on later
    attempts.  The loop is the client's: [open] itself settles with the first
    attempt, resolving when it succeeds and rejecting with "Connection is
    closed." when it fails. *)
Theorem retry_policy :
  (forall attempt, attempt <= 3 ->
     retryStrategy attempt = Return (Z.min (attempt * 200) 1000)) /\
  (forall attempt, 3 < attempt ->
     retryStrategy attempt =
       Throw (mkError (Some ("[Redis] Could not connect after " +:+ pretty attempt +:+
                             " attempts")))) /\
  (forall rest this rt,
     exists rt',
       reconnect (false :: false :: true :: rest) 1 (this, rt) [] =
         (set_isConnected true this, rt', [200; 400], Ready)) /\
  (forall rest this rt,
     exists rt',
       reconnect (false :: false :: false :: false :: rest) 1 (this, rt) [] =
         (set_isConnected false this, rt', [200; 400; 600],
          Fatal (mkError (Some "[Redis] Could not connect after 4 attempts")))) /\
  (forall first rest this rt w, isConnected this = false ->
     exists rt',
       open (first :: rest) this rt w =
         (set_isConnected first this, rt', Client.record Client.EvConnect w,
          Some (if first then Return tt
                else Throw (mkError (Some "Connection is closed."))))).
Proof.
  split; [exact retryStrategy_within |].
  split; [exact retryStrategy_beyond |].
  split; [intros rest this rt; simpl; eexists; reflexivity |].
  split; [intros rest this rt; simpl; eexists; reflexivity |].
  intros first rest this rt w Hc. unfold open. rewrite Hc.
  destruct first; simpl; eexists; reflexivity.
Qed.

Lemma retry_policy_witness :
  retryStrategy 3 = Return 600 /\
  exists rt',
    open [false; false; true]
         {| options := makeOptions (mkRedisConfig "localhost" None None);
            isConnected := false; keyPrefix := defaultKeyPrefix |}
         (mkRuntime ∅ []) (Client.mkWire ∅ []) =
      (set_isConnected false
         {| options := makeOptions (mkRedisConfig "localhost" None None);
            isConnected := false; keyPrefix := defaultKeyPrefix |},
       rt', Client.record Client.EvConnect (Client.mkWire ∅ []),
       Some (Throw (mkError (Some "Connection is closed.")))).
Proof.
  split.
  - apply (proj1 retry_policy 3). lia.
  - apply (proj2 (proj2 (proj2 (proj2 retry_policy))) false). reflexivity.
Defined.

End Retry.

(** ** Point lookups *)

Section Get.

Import Client RedisDBService.

(** [get] never changes the store, and asks the client for the prefixed
    key, once. *)
Lemma get_wire (this : t) (fault : option Error) (key : string) (w : Wire) :
  (get this fault key w).1 = record (EvGet (prefixKey this key)) w.
Proof.
  unfold get, get_try, Client.get.
  destruct fault as [e|]; [reflexivity |].
  destruct (remote w !! prefixKey this key); reflexivity.
Qed.

Lemma get_fault (this : t) (e : Error) (key : string) (w : Wire) :
  (get this (Some e) key w).2 = Throw (get_catch key e).
Proof. reflexivity. Qed.

Lemma get_present (this : t) (key value : string) (w : Wire) :
  remote w !! prefixKey this key = Some value ->
  (get this None key w).2 = Return value.
Proof. intros H. unfold get, get_try, Client.get. now rewrite H. Qed.

Lemma get_absent (this : t) (key : string) (w : Wire) :
  remote w !! prefixKey this key = None ->
  (get this None key w).2 = Throw (NotFound key).
Proof.
  intros H. unfold get, get_try, Client.get. rewrite H. simpl.
  unfold get_catch.
  assert (Hin : opt_includes (message (NotFound key)) "Key not found" = true).
  { apply includes_spec. exists "", (": " +:+ key). reflexivity. }
  now rewrite Hin.
Qed.

(** The message of a wrapped error is longer than the message it wraps. *)
Lemma OperationError_fresh (key : string) (error : Error) :
  OperationError key error <> error.
Proof.
  destruct error as [[m|]]; unfold OperationError; simpl; intros H;
    [| discriminate].
  injection H as H. apply (f_equal String.length) in H.
  rewrite !length_append in H. simpl in H. lia.
Qed.

(** C10. In [get], a caught error is thrown again as it is exactly when it
    has a message that contains "Key not found"; any other error is replaced
    by a new error whose message names the operation and the key and ends
    with the message of the cause.  So a transport failure whose message
    contains "Key not found" reaches the caller unchanged, as an absent key
    does. *)
Theorem get_error_classification (key : string) (error : Error) :
  (get_catch key error = error <->
     exists m a b, message error = Some m /\ m = a +:+ "Key not found" +:+ b) /\
  (opt_includes (message error) "Key not found" = false ->
     get_catch key error =
       mkError (Some ("Redis get error for key " +:+ key +:+ ": " +:+
                      interpolate (message error)))) /\
  (forall this w, (get this (Some error) key w).2 = Throw (get_catch key error)) /\
  (forall this w m a b,
     message error = Some m -> m = a +:+ "Key not found" +:+ b ->
     (get this (Some error) key w).2 = Throw error).
Proof.
  assert (Hiff : opt_includes (message error) "Key not found" = true <->
                 exists m a b, message error = Some m /\
                               m = a +:+ "Key not found" +:+ b).
  { destruct error as [[m|]]; simpl.
    - rewrite includes_spec. split.
      + intros (a & b & H). exists m, a, b. auto.
      + intros (m' & a & b & Hm & H). injection Hm as ->. eauto.
    - split; [discriminate | intros (m & _ & _ & Hm & _); discriminate]. }
  repeat split.
  - intros H. apply Hiff. unfold get_catch in H.
    destruct (opt_includes (message error) "Key not found"); [reflexivity |].
    now apply OperationError_fresh in H.
  - intros H. apply Hiff in H. unfold get_catch. now rewrite H.
  - intros H. unfold get_catch. now rewrite H.
  - intros this w m a b Hm Hab. rewrite get_fault. f_equal.
    unfold get_catch.
    assert (H : opt_includes (message error) "Key not found" = true)
      by (apply Hiff; eauto).
    now rewrite H.
Qed.

Lemma get_error_classification_witness :
  (get {| options := makeOptions (mkRedisConfig "localhost" None None);
          isConnected := true; keyPrefix := defaultKeyPrefix |}
       (Some (mkError (Some "ERR Key not found in slot cache")))
       "order:123" (mkWire ∅ [])).2 =
    Throw (mkError (Some "ERR Key not found in slot cache")) /\
  get_catch "order:123" (mkError (Some "ECONNRESET")) =
    mkError (Some "Redis get error for key order:123: ECONNRESET").
Proof.
  split.
  - apply (proj2 (proj2 (proj2 (get_error_classification "order:123"
             (mkError (Some "ERR Key not found in slot cache")))))
             _ _ "ERR Key not found in slot cache" "ERR " " in slot cache");
      reflexivity.
  - apply (proj1 (proj2 (get_error_classification "order:123"
             (mkError (Some "ECONNRESET"))))).
    reflexivity.
Defined.

End Get.

(** ** Batches *)

Section Batch.

Import Client RedisDBService.

Lemma chain_app (ops operations : list Operation) :
  chain ops operations = operations ++ ops.
Proof.
  revert operations. induction ops as [|op ops IH]; intros operations.
  - symmetry. apply app_nil_r.
  - unfold chain in *. simpl. rewrite IH.
    destruct op; unfold put, del; now rewrite <- app_assoc.
Qed.

Lemma queue_fold (this : t) (ops : list Operation) (pipeline : list Command) :
  foldl (queue this) pipeline ops = pipeline ++ map (command_of this) ops.
Proof.
  revert pipeline. induction ops as [|op ops IH]; intros pipeline; simpl.
  - symmetry. apply app_nil_r.
  - rewrite IH. destruct op; unfold queue; simpl; now rewrite <- app_assoc.
Qed.

Lemma apply_commands_operations (this : t) (m : gmap string string) (ops : list Operation) :
  apply_commands m (map (command_of this) ops) = foldl (apply_operation this) m ops.
Proof.
  revert m. induction ops as [|op ops IH]; intros m; simpl; [reflexivity |].
  apply IH.
Qed.

Lemma write_remote (this : t) (fault : option (nat * Error)) (ops : list Operation)
    (w : Wire) :
  remote (write this fault ops w).1.1 =
    apply_commands (remote w) (delivered fault (map (command_of this) ops)).
Proof.
  unfold write. destruct ops as [|op ops].
  - destruct fault as [[n e]|]; simpl; [now rewrite take_nil | reflexivity].
  - cbn [length Nat.eqb]. rewrite queue_fold. cbn [app].
    destruct fault as [[n e]|]; reflexivity.
Qed.

Lemma write_trace (this : t) (fault : option (nat * Error)) (ops : list Operation)
    (w : Wire) :
  trace (write this fault ops w).1.1 =
    trace w ++ match ops with
               | [] => []
               | _ :: _ => [EvPipeline; EvExec (map (command_of this) ops)]
               end.
Proof.
  unfold write. destruct ops as [|op ops].
  - simpl. symmetry. apply app_nil_r.
  - cbn [length Nat.eqb]. rewrite queue_fold. cbn [app].
    destruct fault as [[n e]|]; simpl; now rewrite <- app_assoc.
Qed.

Lemma write_done (this : t) (ops : list Operation) (w : Wire) :
  (write this None ops w).2 = Return tt /\ (write this None ops w).1.2 = [].
Proof. unfold write. destruct ops; simpl; auto. Qed.

(** Commands on other keys leave a key as it was. *)
Lemma apply_commands_other (key : string) (cs : list Command) (m : gmap string string) :
  Forall (fun c => command_key c <> key) cs ->
  apply_commands m cs !! key = m !! key.
Proof.
  intros H. revert m. induction H as [|c cs Hc _ IH]; intros m; [reflexivity |].
  unfold apply_commands in *. simpl. rewrite IH.
  destruct c; simpl in *.
  - now apply lookup_insert_ne.
  - now apply lookup_delete_ne.
Qed.

Lemma apply_commands_app (m : gmap string string) (cs1 cs2 : list Command) :
  apply_commands m (cs1 ++ cs2) = apply_commands (apply_commands m cs1) cs2.
Proof. unfold apply_commands. apply foldl_app. Qed.

(** C9. [write] on a builder whose buffer is empty returns at once: the
    wire is as before (no pipeline was created, nothing was sent, the store
    is unchanged), whatever the state of the transport. *)
Theorem write_empty (this : t) (fault : option (nat * Error)) (w : Wire) :
  write this fault batch w = (w, [], Return tt).
Proof. reflexivity. Qed.

End Batch.

(** ** The namespace prefix *)

Section Namespace.

Import Client RedisDBService.

Lemma prefixKey_inj (this : t) (k1 k2 : string) :
  prefixKey this k1 = prefixKey this k2 -> k1 = k2.
Proof. unfold prefixKey. apply String.app_inj. Qed.

Lemma command_key_of (this : t) (op : Operation) :
  command_key (command_of this op) = prefixKey this (op_key op).
Proof. destruct op; reflexivity. Qed.

Lemma command_of_prefixed (this : t) (ops : list Operation) :
  forallb (fun c => String.prefix (keyPrefix this) (command_key c))
          (map (command_of this) ops) = true.
Proof.
  induction ops as [|op ops IH]; [reflexivity |].
  simpl. rewrite IH, command_key_of. unfold prefixKey.
  now rewrite prefix_append.
Qed.

(** What [get] answers depends on the store only through the prefixed key. *)
Lemma get_result_ext (this : t) (fault : option Error) (key : string) (w1 w2 : Wire) :
  remote w1 !! prefixKey this key = remote w2 !! prefixKey this key ->
  (get this fault key w1).2 = (get this fault key w2).2.
Proof.
  intros H. unfold get, get_try, Client.get.
  destruct fault as [e|]; [reflexivity |]. rewrite H.
  destruct (remote w2 !! prefixKey this key); reflexivity.
Qed.

Lemma delivered_Forall (P : Command -> Prop) (fault : option (nat * Error))
    (cs : list Command) :
  Forall P cs -> Forall P (delivered fault cs).
Proof.
  intros H. destruct fault as [[n e]|]; simpl; [now apply Forall_take | exact H].
Qed.

(** The prefix of a service made by the constructor is never empty, so a
    key with it in front is not the key. *)
Lemma prefixed_differs (key : string) : "cryptoswap:watch-tower:" +:+ key <> key.
Proof.
  intros H. apply (f_equal String.length) in H. rewrite length_append in H.
  simpl in H. lia.
Qed.

(** C2. A service made by the constructor has the prefix
    "cryptoswap:watch-tower:".  [get] asks the client for the key with the
    prefix of the service in front and for nothing else, and every command
    [write] hands to the client carries such a key: no key goes to the client
    as the caller gave it.  Hence two services on one remote store whose
    prefixes differ do not see each other's writes to a key: what [get k]
    answers under one prefix is the same before and after any batch on [k]
    written under the other.  In particular a service made by the
    constructor and a service with any other prefix do not see each other's
    writes. *)
Theorem namespace_isolation :
  (forall this fault key w,
     trace (get this fault key w).1 = trace w ++ [EvGet (keyPrefix this +:+ key)] /\
     event_prefixed (keyPrefix this) (EvGet (keyPrefix this +:+ key)) = true) /\
  (forall this fault ops w,
     exists evs,
       trace (write this fault (chain ops batch) w).1.1 = trace w ++ evs /\
       Forall (fun e => event_prefixed (keyPrefix this) e = true) evs) /\
  (forall a b k ops fault fault' w,
     keyPrefix a <> keyPrefix b ->
     Forall (fun op => op_key op = k) ops ->
     (get b fault' k (write a fault (chain ops batch) w).1.1).2 =
       (get b fault' k w).2) /\
  (forall (Number : string -> number) config rt,
     keyPrefix (construct Number config rt).2 = "cryptoswap:watch-tower:") /\
  (forall (Number : string -> number) config rt fault key w,
     trace (get (construct Number config rt).2 fault key w).1 =
       trace w ++ [EvGet ("cryptoswap:watch-tower:" +:+ key)] /\
     "cryptoswap:watch-tower:" +:+ key <> key) /\
  (forall (Number : string -> number) config rt fault ops w,
     trace (write (construct Number config rt).2 fault (chain ops batch) w).1.1 =
       trace w ++
       match ops with
       | [] => []
       | _ :: _ =>
           [EvPipeline;
            EvExec (map (fun op => match op with
                                   | put_op k v => SET ("cryptoswap:watch-tower:" +:+ k) v
                                   | del_op k => DEL ("cryptoswap:watch-tower:" +:+ k)
                                   end) ops)]
       end) /\
  (forall (Number : string -> number) config rt b k ops fault fault' w,
     keyPrefix b <> "cryptoswap:watch-tower:" ->
     Forall (fun op => op_key op = k) ops ->
     (get b fault' k
          (write (construct Number config rt).2 fault (chain ops batch) w).1.1).2 =
       (get b fault' k w).2 /\
     (get (construct Number config rt).2 fault' k
          (write b fault (chain ops batch) w).1.1).2 =
       (get (construct Number config rt).2 fault' k w).2).
Proof.
  assert (Hiso : forall a b k ops fault fault' w,
            keyPrefix a <> keyPrefix b ->
            Forall (fun op => op_key op = k) ops ->
            (get b fault' k (write a fault (chain ops batch) w).1.1).2 =
              (get b fault' k w).2).
  { intros a b k ops fault fault' w Hne Hk.
    apply get_result_ext. rewrite chain_app, write_remote. simpl.
    apply apply_commands_other, delivered_Forall.
    apply Forall_map. eapply Forall_impl; [exact Hk |].
    intros op Hop. simpl in *. rewrite command_key_of, Hop. unfold prefixKey.
    intros Heq. apply Hne. now apply append_inj_l in Heq. }
  split; [| split; [| split; [exact Hiso | split; [| split; [| split]]]]].
  - intros this fault key w. rewrite get_wire. split; [reflexivity |].
    simpl. apply prefix_append.
  - intros this fault ops w. rewrite chain_app, write_trace. simpl.
    eexists. split; [reflexivity |].
    destruct ops as [|op ops]; [constructor |].
    repeat constructor. apply (command_of_prefixed this (op :: ops)).
  - reflexivity.
  - intros Number config rt fault key w. rewrite get_wire.
    split; [reflexivity | apply prefixed_differs].
  - intros Number config rt fault ops w. rewrite chain_app, write_trace. simpl.
    destruct ops as [|op ops]; reflexivity.
  - intros Number config rt b k ops fault fault' w Hne Hk. split.
    + apply Hiso; [| exact Hk]. intros Heq. apply Hne. symmetry. exact Heq.
    + apply Hiso; [| exact Hk]. exact Hne.
Qed.

Lemma namespace_isolation_witness :
  let a := (construct (fun _ => NaN) None (mkRuntime ∅ [])).2 in
  let b := mkService (makeOptions (mkRedisConfig "localhost" None None)) true
                     "tenant-b:" in
  (get b None "order:123"
       (write a None (chain [put_op "order:123" "open"] batch) (mkWire ∅ [])).1.1).2 =
    (get b None "order:123" (mkWire ∅ [])).2 /\
  (get a None "order:123"
       (write b None (chain [put_op "order:123" "open"] batch) (mkWire ∅ [])).1.1).2 =
    (get a None "order:123" (mkWire ∅ [])).2.
Proof.
  intros a b.
  apply (proj2 (proj2 (proj2 (proj2 (proj2 (proj2 namespace_isolation)))))
           (fun _ => NaN) None (mkRuntime ∅ []) b "order:123").
  - simpl. discriminate.
  - repeat constructor.
Defined.

End Namespace.

(** ** Writing a batch *)

Section Write.

Import Client RedisDBService.

Lemma commands_other_key (this : t) (k : string) (ops : list Operation) :
  Forall (fun op => op_key op <> k) ops ->
  Forall (fun c => command_key c <> prefixKey this k) (map (command_of this) ops).
Proof.
  intros H. apply Forall_map. eapply Forall_impl; [exact H |].
  intros op Hop. simpl in *. rewrite command_key_of.
  intros Heq. apply Hop. now apply prefixKey_inj in Heq.
Qed.

(** The last [put] on a key decides its value. *)
Lemma last_put_wins (this : t) (k v : string) (before after : list Operation)
    (m : gmap string string) :
  Forall (fun op => op_key op <> k) after ->
  foldl (apply_operation this) m (before ++ put_op k v :: after) !! prefixKey this k
    = Some v.
Proof.
  intros H. rewrite <- apply_commands_operations, map_app, apply_commands_app.
  cbn [map]. change (apply_commands ?m (?c :: ?cs)) with
    (apply_commands (apply_command m c) cs).
  rewrite apply_commands_other by now apply commands_other_key.
  simpl. apply lookup_insert_eq.
Qed.

(** The last [del] on a key removes it. *)
Lemma last_del_wins (this : t) (k : string) (before after : list Operation)
    (m : gmap string string) :
  Forall (fun op => op_key op <> k) after ->
  foldl (apply_operation this) m (before ++ del_op k :: after) !! prefixKey this k
    = None.
Proof.
  intros H. rewrite <- apply_commands_operations, map_app, apply_commands_app.
  cbn [map]. change (apply_commands ?m (?c :: ?cs)) with
    (apply_commands (apply_command m c) cs).
  rewrite apply_commands_other by now apply commands_other_key.
  simpl. apply lookup_delete_eq.
Qed.

(** After a [write] that succeeds, what [get] answers for a key is decided
    by the last operation of the batch on that key. *)
Lemma last_operation_wins (this : t) (w : Wire) (k : string) (last : Operation)
    (before after : list Operation) :
  op_key last = k ->
  Forall (fun op => op_key op <> k) after ->
  (get this None k (write this None (chain (before ++ last :: after) batch) w).1.1).2 =
    match last with
    | put_op _ v => Return v
    | del_op _ => Throw (NotFound k)
    end.
Proof.
  intros Hk Hafter. rewrite chain_app. simpl.
  destruct last as [k' v|k']; simpl in Hk; subst k'.
  - apply get_present. rewrite write_remote. simpl.
    rewrite apply_commands_operations. now apply last_put_wins.
  - apply get_absent. rewrite write_remote. simpl.
    rewrite apply_commands_operations. now apply last_del_wins.
Qed.

(** C4. A batch is the sequence of operations in the order of the [put]
    and [del] calls, and a [write] that succeeds applies them to the store
    in that order.  When a key is put twice, and the second [put] is the
    last operation of the batch on that key, [get] returns the second
    value. *)
Theorem batch_last_write_wins (this : t) (w : Wire) (k v1 v2 : string)
    (before between after : list Operation) :
  Forall (fun op => op_key op <> k) after ->
  let ops := before ++ put_op k v1 :: between ++ put_op k v2 :: after in
  let r := write this None (chain ops batch) w in
  chain ops batch = ops /\
  r.2 = Return tt /\
  remote r.1.1 = foldl (apply_operation this) (remote w) ops /\
  (get this None k r.1.1).2 = Return v2.
Proof.
  intros Hafter ops r.
  assert (Hchain : chain ops batch = ops) by apply chain_app.
  repeat split; [exact Hchain | apply write_done | |].
  - subst r. rewrite Hchain, write_remote. apply apply_commands_operations.
  - subst r ops.
    change (before ++ put_op k v1 :: between ++ put_op k v2 :: after)
      with (before ++ (put_op k v1 :: between) ++ put_op k v2 :: after).
    rewrite app_assoc.
    now apply (last_operation_wins this w k (put_op k v2)).
Qed.

Lemma batch_last_write_wins_witness :
  let this := mkService (makeOptions (mkRedisConfig "localhost" None None)) true
                        defaultKeyPrefix in
  let ops := [del_op "b"; put_op "a" "1"; put_op "b" "x"; put_op "a" "2"; del_op "b"] in
  (get this None "a" (write this None (chain ops batch) (mkWire ∅ [])).1.1).2 = Return "2".
Proof.
  intros this ops.
  apply (batch_last_write_wins this (mkWire ∅ []) "a" "1" "2"
           [del_op "b"] [put_op "b" "x"] [del_op "b"]).
  repeat constructor. simpl. discriminate.
Defined.

(** C5. A [write] that succeeds leaves the buffer of the builder empty, and
    the builder can be used again: operations chained on it afterwards form
    the next batch, whose [write] applies exactly those operations and leaves
    the buffer empty again. *)
Theorem write_clears_buffer (this : t) (fault : option (nat * Error))
    (ops ops' : list Operation) (w : Wire) :
  ((write this fault ops w).2 = Return tt -> (write this fault ops w).1.2 = []) /\
  (let r := write this None ops w in
   let r' := write this None (chain ops' r.1.2) r.1.1 in
   r.2 = Return tt /\ r.1.2 = [] /\
   r'.2 = Return tt /\ r'.1.2 = [] /\
   remote r'.1.1 = foldl (apply_operation this) (remote r.1.1) ops').
Proof.
  split.
  - unfold write. destruct ops as [|op ops]; [reflexivity |].
    cbn [length Nat.eqb]. destruct fault as [[n e]|]; reflexivity.
  - intros r r'. destruct (write_done this ops w) as [Hc Hb].
    repeat split; try assumption; subst r'; try apply write_done.
    subst r. rewrite Hb, chain_app, write_remote. simpl.
    apply apply_commands_operations.
Qed.

Lemma write_clears_buffer_witness :
  (write (mkService (makeOptions (mkRedisConfig "localhost" None None)) true
                    defaultKeyPrefix)
         None [put_op "a" "1"; put_op "b" "2"] (mkWire ∅ [])).1.2 = [].
Proof.
  apply (proj1 (write_clears_buffer _ None [put_op "a" "1"; put_op "b" "2"] []
                  (mkWire ∅ []))).
  reflexivity.
Defined.

End Write.

(** ** What [get] answers *)

Section GetOutcomes.

Import Client RedisDBService.

(** Commands that do not set a key leave it absent. *)
Lemma apply_commands_absent (key : string) (cs : list Command) (m : gmap string string) :
  Forall (fun c => forall v, c <> SET key v) cs ->
  m !! key = None ->
  apply_commands m cs !! key = None.
Proof.
  intros H. revert m. induction H as [|c cs Hc _ IH]; intros m Hm; [exact Hm |].
  unfold apply_commands in *. simpl. apply IH.
  destruct c as [k v|k]; simpl.
  - rewrite lookup_insert_ne; [exact Hm |]. intros ->. now apply (Hc v).
  - rewrite lookup_delete. case_decide; [reflexivity | exact Hm].
Qed.

Lemma write_keeps_absent (this : t) (fault : option (nat * Error))
    (ops : list Operation) (key : string) (w : Wire) :
  (forall v, put_op key v ∉ ops) ->
  remote w !! prefixKey this key = None ->
  remote (write this fault (chain ops batch) w).1.1 !! prefixKey this key = None.
Proof.
  intros Hops Hw. rewrite chain_app, write_remote. simpl.
  apply apply_commands_absent; [| exact Hw].
  apply delivered_Forall, Forall_map, Forall_forall.
  intros [k v|k] Hin v'; simpl; [| discriminate].
  intros Heq. injection Heq as Hk ->. apply prefixKey_inj in Hk. subst k.
  now apply (Hops v').
Qed.

Lemma write_all_keeps_absent (this : t) (key : string)
    (batches : list (option (nat * Error) * list Operation)) (w : Wire) :
  (forall b v, b ∈ batches -> put_op key v ∉ b.2) ->
  remote w !! prefixKey this key = None ->
  remote (write_all this batches w) !! prefixKey this key = None.
Proof.
  revert w. induction batches as [|b batches IH]; intros w Hb Hw; [exact Hw |].
  unfold write_all in *. simpl. apply IH.
  - intros b' v Hin. apply Hb. now right.
  - apply write_keeps_absent; [| exact Hw].
    intros v. apply Hb. now left.
Qed.

(** A transport failure that [get] does not wrap: its message contains
    "Key not found", so the caller receives it as it is, not inside an
    [OperationError]. *)
Lemma get_transport_failure_not_wrapped :
  ~ (forall (this : t) (key : string) (w : Wire) (e : Error),
       (get this (Some e) key w).2 = Throw (OperationError key e)).
Proof.
  intros H.
  specialize (H (mkService (makeOptions (mkRedisConfig "localhost" None None)) true
                           defaultKeyPrefix)
                "order:123" (mkWire ∅ [])
                (mkError (Some "Key not found in slot cache: connection lost"))).
  rewrite get_fault in H. vm_compute in H. discriminate H.
Qed.

(** C3, amended. [get] returns the stored value when the key is present
    and fails with [NotFound] when it is absent; a key that no batch has put
    since the store was empty is absent.  On a transport failure whose
    message does not contain "Key not found", [get] fails with an
    [OperationError] that carries the operation, the key and the message of
    the cause; a failure whose message contains it is thrown again as it
    is. *)
Theorem get_outcomes (this : t) (key : string) (w : Wire) :
  (forall value, remote w !! prefixKey this key = Some value ->
     (get this None key w).2 = Return value) /\
  (remote w !! prefixKey this key = None ->
     (get this None key w).2 = Throw (NotFound key)) /\
  (forall batches,
     remote w = ∅ ->
     (forall b v, b ∈ batches -> put_op key v ∉ b.2) ->
     (get this None key (write_all this batches w)).2 = Throw (NotFound key)) /\
  (forall e, opt_includes (message e) "Key not found" = false ->
     (get this (Some e) key w).2 = Throw (OperationError key e) /\
     OperationError key e =
       mkError (Some ("Redis get error for key " +:+ key +:+ ": " +:+
                      interpolate (message e)))) /\
  (forall e, opt_includes (message e) "Key not found" = true ->
     (get this (Some e) key w).2 = Throw e).
Proof.
  repeat split.
  - intros value. apply get_present.
  - apply get_absent.
  - intros batches Hempty Hb. apply get_absent.
    apply write_all_keeps_absent; [exact Hb |]. rewrite Hempty. apply lookup_empty.
  - rewrite get_fault. unfold get_catch. now rewrite H.
  - intros e He. rewrite get_fault. unfold get_catch. now rewrite He.
Qed.

Lemma get_outcomes_witness :
  let this := mkService (makeOptions (mkRedisConfig "localhost" None None)) true
                        defaultKeyPrefix in
  (get this None "order:123"
       (mkWire {[ "cryptoswap:watch-tower:order:123" := "open" ]} [])).2 = Return "open" /\
  (get this None "order:124"
       (write_all this [(None, [put_op "order:123" "open"; del_op "order:124"])]
                  (mkWire ∅ []))).2 = Throw (NotFound "order:124") /\
  (get this (Some (mkError (Some "ECONNRESET"))) "order:123" (mkWire ∅ [])).2 =
    Throw (OperationError "order:123" (mkError (Some "ECONNRESET"))).
Proof.
  intros this. split; [| split].
  - apply (proj1 (get_outcomes this "order:123" _)). reflexivity.
  - apply (proj1 (proj2 (proj2 (get_outcomes this "order:124" (mkWire ∅ []))))).
    + reflexivity.
    + intros b v Hb. apply list_elem_of_singleton in Hb. subst b. simpl.
      intros Hin. repeat (apply elem_of_cons in Hin as [Hin|Hin]; [discriminate |]).
      now apply elem_of_nil in Hin.
  - apply (proj1 (proj2 (proj2 (proj2 (get_outcomes this "order:123" (mkWire ∅ [])))))).
    reflexivity.
Defined.

End GetOutcomes.

(** ** Closing *)

Section Close.

Import Client RedisDBService.

Lemma close_not_connected (this : t) (rt : Runtime) (w : Wire) :
  isConnected this = false ->
  close this rt w =
    (this,
     log "redisDBService:close" "Redis connection closed"
         (log "redisDBService:close" "Closing Redis connection..." rt),
     w).
Proof. intros H. unfold close. now rewrite H. Qed.

(** [close] is not a no-op on every service that was closed: [close] leaves
    [isConnected] as it is, so on a connected service a second [close],
    called before the [close] event of the client, asks the client to quit
    again. *)
Lemma close_again_before_close_event :
  ~ (forall (this : t) (rt : Runtime) (w : Wire),
       let closed := close this rt w in
       (close closed.1.1 closed.1.2 closed.2).2 = closed.2).
Proof.
  intros H.
  specialize (H (mkService (makeOptions (mkRedisConfig "localhost" None None)) true
                           defaultKeyPrefix)
                (mkRuntime ∅ []) (mkWire ∅ [EvConnect])).
  vm_compute in H. discriminate H.
Qed.

(** C6, amended. [close] on a service that is not connected does not call
    [quit]: the service and the wire are as before, and only the two log
    lines of [close] are written.  That is the state of a service that was
    closed, once the client has emitted its [close] event: a further [close]
    then is such a call.  The facade, when it uses the Redis service, passes
    [close] on to it, with the same effect. *)
Theorem close_idempotent :
  (forall this rt w,
     isConnected this = false ->
     close this rt w =
       (this,
        log "redisDBService:close" "Redis connection closed"
            (log "redisDBService:close" "Closing Redis connection..." rt),
        w)) /\
  (forall this rt w,
     let r := close this rt w in
     let closed := on_close (r.1.1, r.1.2) in
     isConnected closed.1 = false /\
     (close closed.1 closed.2 r.2).1.1 = closed.1 /\
     (close closed.1 closed.2 r.2).2 = r.2) /\
  (forall (levelClose : DBService.Level -> DBService.Level * Completion unit)
          (typeError : Error)
          (d : DBService.t) (p : DBService.Process) (w : Wire) (a : nat) (r : t),
     DBService.storageType d = "redis" ->
     DBService.redisService d = Some a ->
     objects (DBService.redis p) !! a = Some r ->
     isConnected r = false ->
     exists rt',
       DBService.close levelClose typeError d p w =
         (d, {| DBService.runtime := rt';
                DBService.redis := DBService.redis p;
                DBService.service := DBService.service p |}, w, Return tt)).
Proof.
  split; [exact close_not_connected |]. split.
  - intros this rt w r closed. split; [reflexivity |].
    rewrite close_not_connected by reflexivity. split; reflexivity.
  - intros levelClose typeError d p w a r Hst Hrs Ha Hc. unfold DBService.close.
    rewrite Hst, Hrs. simpl. rewrite Ha. unfold close. rewrite Hc. simpl.
    rewrite (insert_id _ _ _ Ha).
    eexists. destruct (DBService.redis p). reflexivity.
Qed.

Lemma close_idempotent_witness :
  let this := mkService (makeOptions (mkRedisConfig "localhost" None None)) false
                        defaultKeyPrefix in
  close this (mkRuntime ∅ []) (mkWire ∅ [EvConnect; EvQuit]) =
    (this,
     mkRuntime ∅ [("redisDBService:close", "Closing Redis connection...");
                  ("redisDBService:close", "Redis connection closed")],
     mkWire ∅ [EvConnect; EvQuit]).
Proof.
  intros this.
  apply (proj1 close_idempotent this (mkRuntime ∅ []) (mkWire ∅ [EvConnect; EvQuit])).
  reflexivity.
Defined.

End Close.

(** ** One instance per process *)

Section Singleton.

Variable Number : string -> number.

Lemma redis_getInstance_again (config : option RedisDBService.RedisConfig)
    (rt : Runtime) (cls : RedisDBService.Class) (a : nat) :
  RedisDBService._instance cls = Some a ->
  RedisDBService.getInstance Number config rt cls = (rt, cls, a).
Proof. intros H. unfold RedisDBService.getInstance. now rewrite H. Qed.

Lemma redis_getInstance_set (config : option RedisDBService.RedisConfig)
    (rt : Runtime) (cls : RedisDBService.Class) :
  let r := RedisDBService.getInstance Number config rt cls in
  RedisDBService._instance r.1.2 = Some r.2.
Proof.
  unfold RedisDBService.getInstance.
  destruct (RedisDBService._instance cls) eqn:H; simpl; [exact H | reflexivity].
Qed.

Lemma redis_requests_again (configs : list (option RedisDBService.RedisConfig))
    (rt : Runtime) (cls : RedisDBService.Class) (a : nat) :
  RedisDBService._instance cls = Some a ->
  redis_requests Number configs rt cls = (rt, cls, replicate (length configs) a).
Proof.
  intros H. induction configs as [|c configs IH]; [reflexivity |].
  simpl. rewrite (redis_getInstance_again _ _ _ _ H), IH. reflexivity.
Qed.

Lemma getInstance_again (path storageType : option string)
    (redisConfig : option RedisDBService.RedisConfig) (p : DBService.Process) (a : nat) :
  DBService._instance (DBService.service p) = Some a ->
  DBService.getInstance Number path storageType redisConfig p = (p, a).
Proof. intros H. unfold DBService.getInstance. now rewrite H. Qed.

Lemma getInstance_set (path storageType : option string)
    (redisConfig : option RedisDBService.RedisConfig) (p : DBService.Process) :
  let r := DBService.getInstance Number path storageType redisConfig p in
  DBService._instance (DBService.service r.1) = Some r.2.
Proof.
  unfold DBService.getInstance.
  destruct (DBService._instance (DBService.service p)) eqn:H; simpl; [exact H |].
  destruct (DBService.construct Number path storageType redisConfig p). reflexivity.
Qed.

Lemma requests_again (reqs : list Request) (p : DBService.Process) (a : nat) :
  DBService._instance (DBService.service p) = Some a ->
  requests Number reqs p = (p, replicate (length reqs) a).
Proof.
  intros H. induction reqs as [|r reqs IH]; [reflexivity |].
  simpl. rewrite (getInstance_again _ _ _ _ _ H), IH. reflexivity.
Qed.

(** C7. A request for the instance of the facade made when there is none
    constructs one object, records it at a fresh address of the class and
    makes that address the instance; a request made when there is an instance
    returns its address and changes nothing.  So after a first request the
    instance is the address it returned, and every later request, whatever its
    arguments, returns that address and leaves the process as it was: no
    object is constructed and no connection is set up.  The same holds for
    the instance of the Redis service. *)
Theorem getInstance_singleton :
  (forall (r : Request) (reqs : list Request) (p : DBService.Process),
     let first :=
       DBService.getInstance Number (req_path r) (req_storageType r)
                             (req_redisConfig r) p in
     DBService._instance (DBService.service first.1) = Some first.2 /\
     requests Number reqs first.1 = (first.1, replicate (length reqs) first.2)) /\
  (forall (r : Request) (p : DBService.Process),
     DBService._instance (DBService.service p) = None ->
     let c := DBService.construct Number (req_path r) (req_storageType r)
                                  (req_redisConfig r) p in
     let first :=
       DBService.getInstance Number (req_path r) (req_storageType r)
                             (req_redisConfig r) p in
     DBService.objects (DBService.service c.1) !! first.2 = None /\
     first.1 =
       {| DBService.runtime := DBService.runtime c.1;
          DBService.redis := DBService.redis c.1;
          DBService.service :=
            {| DBService.objects :=
                 <[first.2 := c.2]> (DBService.objects (DBService.service c.1));
               DBService._instance := Some first.2 |} |} /\
     DBService.objects (DBService.service first.1) !! first.2 = Some c.2) /\
  (forall (r : Request) (p : DBService.Process) (a : nat),
     DBService._instance (DBService.service p) = Some a ->
     DBService.getInstance Number (req_path r) (req_storageType r)
                           (req_redisConfig r) p = (p, a)) /\
  (forall config configs rt cls,
     let first := RedisDBService.getInstance Number config rt cls in
     RedisDBService._instance first.1.2 = Some first.2 /\
     redis_requests Number configs first.1.1 first.1.2 =
       (first.1.1, first.1.2, replicate (length configs) first.2)) /\
  (forall config rt cls,
     RedisDBService._instance cls = None ->
     let c := RedisDBService.construct Number config rt in
     let first := RedisDBService.getInstance Number config rt cls in
     RedisDBService.objects cls !! first.2 = None /\
     first.1 =
       (c.1, {| RedisDBService.objects := <[first.2 := c.2]> (RedisDBService.objects cls);
                RedisDBService._instance := Some first.2 |}) /\
     RedisDBService.objects first.1.2 !! first.2 = Some c.2) /\
  (forall config rt cls a,
     RedisDBService._instance cls = Some a ->
     RedisDBService.getInstance Number config rt cls = (rt, cls, a)).
Proof.
  split; [| split; [| split; [| split; [| split]]]].
  - intros r reqs p first. split; [apply getInstance_set |].
    apply requests_again. apply getInstance_set.
  - intros r p Hnone c first. subst first c. unfold DBService.getInstance.
    rewrite Hnone.
    destruct (DBService.construct Number (req_path r) (req_storageType r)
                                  (req_redisConfig r) p) as [p1 o].
    simpl. split; [apply not_elem_of_dom, is_fresh |].
    split; [reflexivity | apply lookup_insert_eq].
  - intros r p a Ha. now apply getInstance_again.
  - intros config configs rt cls first. split; [apply redis_getInstance_set |].
    apply redis_requests_again. apply redis_getInstance_set.
  - intros config rt cls Hnone c first. subst first c.
    unfold RedisDBService.getInstance. rewrite Hnone. simpl.
    split; [apply not_elem_of_dom, is_fresh |].
    split; [reflexivity | apply lookup_insert_eq].
  - intros config rt cls a Ha. now apply redis_getInstance_again.
Qed.

End Singleton.

Lemma getInstance_singleton_witness :
  let r := mkRequest None (Some "redis") None in
  let c := DBService.construct (fun _ => NaN) (req_path r) (req_storageType r)
                               (req_redisConfig r) (process0 ∅) in
  let first := DBService.getInstance (fun _ => NaN) (req_path r) (req_storageType r)
                                     (req_redisConfig r) (process0 ∅) in
  DBService.objects (DBService.service c.1) !! first.2 = None /\
  first.1 =
    {| DBService.runtime := DBService.runtime c.1;
       DBService.redis := DBService.redis c.1;
       DBService.service :=
         {| DBService.objects :=
              <[first.2 := c.2]> (DBService.objects (DBService.service c.1));
            DBService._instance := Some first.2 |} |} /\
  DBService.objects (DBService.service first.1) !! first.2 = Some c.2.
Proof.
  apply (proj1 (proj2 (getInstance_singleton (fun _ => NaN)))
           (mkRequest None (Some "redis") None) (process0 ∅)).
  reflexivity.
Defined.


(** ** Choice of the backend *)

Section Selection.

Import DBService.

Variable Number : string -> number.




End Selection.


(** ** Scenarios of the specification, evaluated *)

Section Examples.

Import Client RedisDBService.

Example retry_delays :
  map retryStrategy [1; 2; 3] = [Return 200; Return 400; Return 600] /\
  retryStrategy 4 = Throw (mkError (Some "[Redis] Could not connect after 4 attempts")).
Proof. split; reflexivity. Qed.

Example put_get_delete :
  let w1 := (write service0 None (chain [put_op "order:123" "open"] batch)
                   (mkWire ∅ [])).1.1 in
  let w2 := (write service0 None (chain [del_op "order:123"] batch) w1).1.1 in
  (get service0 None "order:123" w1).2 = Return "open" /\
  (get service0 None "order:123" w2).2 = Throw (NotFound "order:123") /\
  trace w2 =
    [EvPipeline; EvExec [SET "cryptoswap:watch-tower:order:123" "open"];
     EvPipeline; EvExec [DEL "cryptoswap:watch-tower:order:123"]].
Proof. vm_compute. auto. Qed.

Example cut_short_write_clears_buffer :
  let ops := [put_op "a" "1"; put_op "b" "2"] in
  let r := write service0 (Some (1%nat, mkError (Some "ECONNRESET"))) ops (mkWire ∅ []) in
  r.2 = Return tt /\
  r.1.2 = [] /\
  remote r.1.1 = {[ "cryptoswap:watch-tower:a" := "1" ]}.
Proof. vm_compute. auto. Qed.

Example two_requests_one_instance :
  let r := requests (fun _ => NaN)
             [mkRequest None (Some "redis") None;
              mkRequest (Some "./other") (Some "leveldb") None]
             (process0 ∅) in
  r.2 = [0%nat; 0%nat] /\
  size (DBService.objects (DBService.service r.1)) = 1%nat /\
  size (RedisDBService.objects (DBService.redis r.1)) = 1%nat /\
  console (DBService.runtime r.1) =
    [("dbService:constructor", "Using Redis storage");
     ("redisDBService:constructor", "Connecting to Redis at localhost:6379")].
Proof. vm_compute. auto. Qed.

Example default_backend :
  DBService.db (DBService.construct (fun _ => NaN) None None None (process0 ∅)).2 =
    DBService.LevelDB (DBService.mkLevel "./database" "json" true false false).
Proof. reflexivity. Qed.

End Examples.

(** * Further properties of the storage layer *)

(** ** Batches: keys left alone, a pipeline cut short *)

Section BatchFurther.

Import Client RedisDBService.

(** X1. A [write], whether it succeeds or is cut short by a transport
    failure, does not change what [get] answers for a key that no operation
    of the batch names. *)
Theorem write_frame (this : t) (fault : option (nat * Error)) (fault' : option Error)
    (ops : list Operation) (key : string) (w : Wire) :
  Forall (fun op => op_key op <> key) ops ->
  (get this fault' key (write this fault (chain ops batch) w).1.1).2 =
    (get this fault' key w).2.
Proof.
  intros H. apply get_result_ext. rewrite chain_app, write_remote. simpl.
  apply apply_commands_other, delivered_Forall. now apply commands_other_key.
Qed.

Lemma write_frame_witness :
  (get service0 None "a"
       (write service0 None (chain [put_op "b" "2"; del_op "c"] batch)
              (mkWire {[ "cryptoswap:watch-tower:a" := "1" ]} [])).1.1).2 =
  (get service0 None "a" (mkWire {[ "cryptoswap:watch-tower:a" := "1" ]} [])).2.
Proof.
  apply (write_frame service0 None None [put_op "b" "2"; del_op "c"] "a").
  repeat constructor; simpl; discriminate.
Defined.

(** X2. A [write] whose pipeline is cut short by a transport failure still
    completes normally and empties the buffer of the builder: the errors come
    back as results of the commands and [write] does not look at them.  The
    store holds the effect of the first [n] operations, in order, and the
    operations that did not reach it are in no buffer any more. *)
Theorem write_cut_short (this : t) (n : nat) (e : Error) (ops : list Operation) (w : Wire) :
  let r := write this (Some (n, e)) ops w in
  r.2 = Return tt /\
  r.1.2 = [] /\
  remote r.1.1 = foldl (apply_operation this) (remote w) (take n ops) /\
  write this None r.1.2 r.1.1 = (r.1.1, [], Return tt).
Proof.
  intros r. subst r.
  assert (Hr : remote (write this (Some (n, e)) ops w).1.1 =
               foldl (apply_operation this) (remote w) (take n ops)).
  { rewrite write_remote. simpl. rewrite <- apply_commands_operations.
    f_equal. symmetry. apply fmap_take. }
  assert (Hb : (write this (Some (n, e)) ops w).1.2 = []).
  { unfold write. destruct ops as [|op ops]; reflexivity. }
  split; [unfold write; destruct ops as [|op ops]; reflexivity |].
  split; [exact Hb |]. split; [exact Hr |]. now rewrite Hb.
Qed.

(** X3. After a [write] that was cut short the builder is empty: writing it
    again sends nothing, whatever the transport would do, so the operations
    that did not reach the store are not tried again.  Only when they are
    chained again and written with success is the store as one successful
    [write] of the whole batch would have left it. *)
Theorem write_again_after_cut_short (this : t) (n : nat) (e : Error)
    (fault' : option (nat * Error)) (ops : list Operation) (w : Wire) :
  let r := write this (Some (n, e)) ops w in
  write this fault' r.1.2 r.1.1 = (r.1.1, [], Return tt) /\
  remote (write this None (chain (drop n ops) r.1.2) r.1.1).1.1 =
    remote (write this None ops w).1.1.
Proof.
  intros r. subst r.
  assert (Hb : (write this (Some (n, e)) ops w).1.2 = []).
  { unfold write. destruct ops as [|op ops]; reflexivity. }
  rewrite Hb. split; [reflexivity |].
  rewrite chain_app, !write_remote. simpl.
  rewrite <- apply_commands_app. f_equal.
  change (map (command_of this) (drop n ops)) with (command_of this <$> drop n ops).
  rewrite fmap_drop. apply take_drop.
Qed.

End BatchFurther.

(** ** Connection: backoff and life cycle *)

Section ConnectionFurther.

Import Client RedisDBService.

(** X4. Every delay the retry strategy returns is [times * 200] and at most
    600 ms: the cap of 1000 ms is never what decides, because the strategy
    throws from the fourth failure on. *)
Theorem retry_delay_linear (times delay : Z) :
  retryStrategy times = Return delay ->
  times <= 3 /\ delay = times * 200 /\ delay <= 600.
Proof.
  unfold retryStrategy. destruct (Z.gtb_spec times 3) as [Hgt|Hle]; [discriminate |].
  intros H. injection H as <-. lia.
Qed.

Lemma retry_delay_linear_witness : 3 <= 3 /\ 600 = 3 * 200 /\ 600 <= 600.
Proof. apply (retry_delay_linear 3 600). reflexivity. Defined.

Lemma reconnect_flag (outcomes : list bool) (times : Z) (st : t * Runtime)
    (delays : list Z) :
  let r := reconnect outcomes times st delays in
  (r.2 = Ready <-> isConnected r.1.1.1 = true) \/
  (r.2 = Pending /\ r.1.1.1 = st.1).
Proof.
  revert times st delays. induction outcomes as [|[|] rest IH]; intros times st delays.
  - right. split; reflexivity.
  - left. simpl. split; reflexivity.
  - simpl. destruct (retryStrategy times) as [d|e].
    + destruct (IH (times + 1) (on_close (on_error st)) (delays ++ [d])) as [H|[Hp Hs]].
      * left. exact H.
      * left. rewrite Hp, Hs. simpl. split; discriminate.
    + left. simpl. split; discriminate.
Qed.

(** X5. [open] on a service that is connected does not touch the client:
    the service and the wire are as before and the promise resolves.  On a
    service that is not connected, [open] calls [connect] once and settles
    with the first attempt: it resolves exactly when that attempt succeeds,
    and then [isConnected] holds; it rejects with "Connection is closed."
    exactly when that attempt fails.  What later attempts bring is not
    awaited. *)
Theorem open_connected_flag (outcomes : list bool) (this : t) (rt : Runtime) (w : Wire) :
  (isConnected this = true ->
     exists rt', open outcomes this rt w = (this, rt', w, Some (Return tt))) /\
  (isConnected this = false ->
     let o := open outcomes this rt w in
     o.1.2 = record EvConnect w /\
     (o.2 = Some (Return tt) <-> isConnected o.1.1.1 = true) /\
     (o.2 = Some (Return tt) <-> exists rest, outcomes = true :: rest) /\
     (o.2 = Some (Throw (mkError (Some "Connection is closed."))) <->
        exists rest, outcomes = false :: rest) /\
     (o.2 = None <-> outcomes = [])).
Proof.
  split; intros Hc.
  - unfold open. rewrite Hc. simpl. eexists. reflexivity.
  - intros o. subst o. unfold open, connect. rewrite Hc.
    destruct outcomes as [|[|] rest]; simpl; rewrite ?Hc;
      (split; [reflexivity |]); repeat split; intros; try discriminate;
      try congruence; eauto;
      match goal with
      | H : exists _, _ |- _ => destruct H; discriminate
      end.
Qed.

Lemma open_connected_flag_witness :
  exists rt', open [false; true] service0 (mkRuntime ∅ []) (mkWire ∅ []) =
                (service0, rt', mkWire ∅ [], Some (Return tt)).
Proof.
  apply (proj1 (open_connected_flag [false; true] service0 (mkRuntime ∅ [])
                  (mkWire ∅ []))).
  reflexivity.
Defined.

(** X6. Whatever the outcomes of the attempts, the connection loop of the
    client sleeps at most three times, 200, 400 and 600 ms in this order: its
    delays are a prefix of that list.  On a service that was not connected,
    the loop leaves [isConnected] set exactly when it ended with the client
    ready. *)
Theorem reconnect_backoff_bounded (outcomes : list bool) (this : t) (rt : Runtime) :
  isConnected this = false ->
  let r := reconnect outcomes 1 (this, rt) [] in
  r.1.2 `prefix_of` [200; 400; 600] /\
  (r.2 = Ready <-> isConnected r.1.1.1 = true).
Proof.
  intros Hc r. subst r. split.
  - destruct outcomes as [|[|] [|[|] [|[|] [|[|] rest]]]]; simpl;
      first [ by exists [200; 400; 600] | by exists [400; 600]
            | by exists [600] | by exists [] ].
  - destruct (reconnect_flag outcomes 1 (this, rt) []) as [H|[Hp Hs]]; [exact H |].
    simpl in *. rewrite Hp, Hs, Hc. split; discriminate.
Qed.

Lemma reconnect_backoff_bounded_witness :
  let r := reconnect [false; false; true] 1
                     (set_isConnected false service0, mkRuntime ∅ []) [] in
  r.1.2 `prefix_of` [200; 400; 600] /\
  (r.2 = Ready <-> isConnected r.1.1.1 = true).
Proof.
  apply (reconnect_backoff_bounded [false; false; true] (set_isConnected false service0)
           (mkRuntime ∅ [])).
  reflexivity.
Defined.

(** X7. A service that was not connected, opened with success and then
    closed: the client was asked to connect once and then to quit once, and
    the store was not touched.  [close] does not clear [isConnected] itself:
    the flag falls when the [close] event of the client arrives, and a
    [close] called before that asks the client to quit once more. *)
Theorem open_then_close (rest : list bool) (this : t) (rt : Runtime) (w : Wire) :
  isConnected this = false ->
  let o := open (true :: rest) this rt w in
  let c := close o.1.1.1 o.1.1.2 o.1.2 in
  o.2 = Some (Return tt) /\
  trace c.2 = trace w ++ [EvConnect; EvQuit] /\
  remote c.2 = remote w /\
  isConnected c.1.1 = true /\
  (close c.1.1 c.1.2 c.2).2 = record EvQuit c.2 /\
  isConnected (on_close (c.1.1, c.1.2)).1 = false.
Proof.
  intros Hc o c. subst c o. unfold open, connect. rewrite Hc. simpl.
  repeat split. now rewrite <- app_assoc.
Qed.

Lemma open_then_close_witness :
  let this := set_isConnected false service0 in
  let o := open [true] this (mkRuntime ∅ []) (mkWire ∅ []) in
  let c := close o.1.1.1 o.1.1.2 o.1.2 in
  o.2 = Some (Return tt) /\
  trace c.2 = [EvConnect; EvQuit] /\
  remote c.2 = ∅ /\
  isConnected c.1.1 = true /\
  (close c.1.1 c.1.2 c.2).2 = record EvQuit c.2 /\
  isConnected (on_close (c.1.1, c.1.2)).1 = false.
Proof.
  apply (open_then_close [] (set_isConnected false service0)
           (mkRuntime ∅ []) (mkWire ∅ [])); reflexivity.
Defined.

End ConnectionFurther.

(** ** The facade over its backends *)

Section FacadeFurther.

Import Client.

Variable Number : string -> number.
Variables levelOpen levelClose : DBService.Level -> DBService.Level * Completion unit.
Variable typeError : Error.

(** X8. A facade constructed over Redis in a process that had no Redis
    service yet, opened with success and then closed: the Redis service it
    constructed is the singleton of its class, it is connected after [open],
    both calls complete normally, and the client was asked to connect and
    then to quit, once each. *)
Theorem facade_redis_lifecycle (path storageType : option string)
    (redisConfig : option RedisDBService.RedisConfig) (rest : list bool)
    (p : DBService.Process) (w : Wire) :
  DBService.resolveStorageType storageType (env (DBService.runtime p)) = "redis" ->
  RedisDBService._instance (DBService.redis p) = None ->
  let c := DBService.construct Number path storageType redisConfig p in
  let o := DBService.open levelOpen typeError (true :: rest) c.2 c.1 w in
  let cl := DBService.close levelClose typeError o.1.1.1 o.1.1.2 o.1.2 in
  exists a r1,
    DBService.getDB c.2 = DBService.RedisDB a /\
    RedisDBService._instance (DBService.redis cl.1.1.2) = Some a /\
    RedisDBService.objects (DBService.redis o.1.1.2) !! a = Some r1 /\
    RedisDBService.isConnected r1 = true /\
    o.2 = Some (Return tt) /\
    cl.2 = Return tt /\
    trace cl.1.2 = trace w ++ [EvConnect; EvQuit].
Proof.
  intros Hst Hnone c o cl.
  subst cl o c.
  unfold DBService.construct. apply String.eqb_eq in Hst. rewrite Hst.
  unfold RedisDBService.getInstance. rewrite Hnone. simpl.
  unfold DBService.open. simpl. rewrite Hst. rewrite lookup_insert_eq. simpl.
  unfold DBService.close. simpl. rewrite Hst. rewrite lookup_insert_eq. simpl.
  eexists. eexists.
  repeat split; try reflexivity; try apply lookup_insert_eq.
  all: try reflexivity.
  now rewrite <- app_assoc.
Qed.

End FacadeFurther.

Lemma facade_redis_lifecycle_witness :
  let level := fun l : DBService.Level => (l, Return tt) in
  let p := process0 {[ "STORAGE_TYPE" := "redis" ]} in
  let c := DBService.construct (fun _ => NaN) None None None p in
  let o := DBService.open level (mkError None) [true] c.2 c.1 (Client.mkWire ∅ []) in
  let cl := DBService.close level (mkError None) o.1.1.1 o.1.1.2 o.1.2 in
  Client.trace cl.1.2 = [Client.EvConnect; Client.EvQuit].
Proof.
  intros level p c o cl.
  destruct (facade_redis_lifecycle (fun _ => NaN) level level (mkError None)
              None None None [] p (Client.mkWire ∅ []) eq_refl eq_refl)
    as (a & r1 & _ & _ & _ & _ & _ & _ & H).
  exact H.
Defined.

(** * The filter policy *)

Section MapFacts.

Import JsMap.

Context {V : Type}.

Lemma Map_get_set (q k : string) (v : V) (m : list (string * V)) :
  Map_get q (Map_set k v m) = if String.eqb k q then Some v else Map_get q m.
Proof.
  induction m as [|[k' v'] m IH]; simpl; [reflexivity |].
  destruct (String.eqb_spec k' k) as [->|Hne]; simpl.
  - destruct (String.eqb k q); reflexivity.
  - rewrite IH. destruct (String.eqb_spec k' q) as [->|Hq]; [| reflexivity].
    destruct (String.eqb_spec k q) as [->|_]; [contradiction | reflexivity].
Qed.

Lemma Map_new_snoc (entries : list (string * V)) (kv : string * V) :
  Map_new (entries ++ [kv]) = Map_set kv.1 kv.2 (Map_new entries).
Proof. unfold Map_new. now rewrite foldl_app. Qed.

(** A [Map] built from entries answers, for a key, with the value of the
    last entry that has this key. *)
Lemma Map_get_new (q : string) (entries : list (string * V)) :
  Map_get q (Map_new entries) = snd <$> last (filter (fun kv => kv.1 = q) entries).
Proof.
  induction entries as [|[k v] entries IH] using rev_ind; [reflexivity |].
  rewrite Map_new_snoc, Map_get_set, filter_app. simpl.
  destruct (String.eqb_spec k q) as [->|Hne].
  - rewrite filter_cons_True by reflexivity. rewrite filter_nil, last_snoc.
    reflexivity.
  - rewrite filter_cons_False by exact Hne. rewrite filter_nil, app_nil_r.
    exact IH.
Qed.

Lemma Map_set_fresh (k : string) (v : V) (m : list (string * V)) :
  k ∉ map fst m -> Map_set k v m = m ++ [(k, v)].
Proof.
  induction m as [|[k' v'] m IH]; intros H; simpl; [reflexivity |].
  simpl in H. apply not_elem_of_cons in H as [Hne Hm].
  destruct (String.eqb_spec k' k) as [->|_]; [contradiction |].
  now rewrite IH.
Qed.

(** Entries with distinct keys are the [Map] themselves. *)
Lemma Map_new_NoDup (entries : list (string * V)) :
  NoDup (map fst entries) -> Map_new entries = entries.
Proof.
  induction entries as [|[k v] entries IH] using rev_ind; intros H; [reflexivity |].
  rewrite map_app in H. apply NoDup_app in H as (H1 & H2 & _).
  rewrite Map_new_snoc, IH by exact H1. simpl.
  apply Map_set_fresh. intros Hin. apply (H2 k Hin). simpl. now left.
Qed.

End MapFacts.

Section Policy.

Import JsMap FilterPolicy.

Variable toLowerCase : string -> string.

Lemma convertToMap_rule (object : option ActionsObject) (q : string) :
  Map_get q (convertToMap object (normalizeAddress toLowerCase)) =
    rule toLowerCase object q.
Proof.
  destruct object as [o|]; [| reflexivity].
  unfold convertToMap, rule. rewrite Map_get_new.
  induction o as [|[k v] o IH] using rev_ind; [reflexivity |].
  rewrite map_app. simpl map.
  rewrite (filter_app _ (map _ o)), (filter_app _ o).
  destruct (decide (default k (normalizeAddress toLowerCase k) = q)) as [Hq|Hq].
  - rewrite (filter_cons_True _ (_, v)) by exact Hq.
    rewrite (filter_cons_True _ (k, v)) by exact Hq.
    rewrite !filter_nil, !last_snoc. reflexivity.
  - rewrite (filter_cons_False _ (_, v)) by exact Hq.
    rewrite (filter_cons_False _ (k, v)) by exact Hq.
    rewrite !filter_nil, !app_nil_r. exact IH.
Qed.

(** [preFilter] in terms of the rules of the configuration. *)
Lemma preFilter_rule (c : PolicyInput) (p : FilterParams) :
  preFilter toLowerCase (construct toLowerCase c) p =
    default (in_defaultAction c)
      (or_action
         (rule toLowerCase (in_conditionalOrderIds c) (toLowerCase (conditionalOrderId p)))
         (or_action
            (rule toLowerCase (in_transactions c) (toLowerCase (transaction p)))
            (or_action
               (rule toLowerCase (in_owners c) (toLowerCase (owner p)))
               (rule toLowerCase (in_handlers c)
                     (toLowerCase (handler (conditionalOrderParams p))))))).
Proof.
  unfold preFilter, construct. simpl. rewrite !convertToMap_rule.
  destruct (or_action _ _); reflexivity.
Qed.

(** X10. [preFilter] on a policy built by the constructor returns the action
    of the first rule that matches, looking at the conditional order id, the
    transaction, the owner and the handler in this order, and the default
    action when none matches.  A rule matches when its key and the value
    looked up agree once put in lower case; among several rules of one object
    whose keys agree in lower case, the last one counts. *)
Theorem preFilter_first_match (c : PolicyInput) (p : FilterParams) :
  preFilter toLowerCase (construct toLowerCase c) p =
    default (in_defaultAction c)
      (or_action
         (rule toLowerCase (in_conditionalOrderIds c) (toLowerCase (conditionalOrderId p)))
         (or_action
            (rule toLowerCase (in_transactions c) (toLowerCase (transaction p)))
            (or_action
               (rule toLowerCase (in_owners c) (toLowerCase (owner p)))
               (rule toLowerCase (in_handlers c)
                     (toLowerCase (handler (conditionalOrderParams p))))))).
Proof. exact (preFilter_rule c p). Qed.

Lemma convertToMap_same_rules (o o' : option ActionsObject) :
  same_rules toLowerCase o o' ->
  convertToMap o (normalizeAddress toLowerCase) =
    convertToMap o' (normalizeAddress toLowerCase).
Proof.
  intros [es es' H|]; [| reflexivity].
  unfold convertToMap. f_equal.
  induction H as [|[k v] [k' v'] es es' [Hk Hv] _ IH]; [reflexivity |].
  simpl in *. now rewrite Hk, Hv, IH.
Qed.

(** X11. The case of letters does not matter to [preFilter], neither in the
    keys of the rules nor in the values looked up: two configurations with
    the same rules up to the case of their keys, asked about parameters that
    agree in lower case, give the same action. *)
Theorem preFilter_case_insensitive (c c' : PolicyInput) (p p' : FilterParams) :
  in_defaultAction c = in_defaultAction c' ->
  same_rules toLowerCase (in_owners c) (in_owners c') ->
  same_rules toLowerCase (in_handlers c) (in_handlers c') ->
  same_rules toLowerCase (in_transactions c) (in_transactions c') ->
  same_rules toLowerCase (in_conditionalOrderIds c) (in_conditionalOrderIds c') ->
  toLowerCase (conditionalOrderId p) = toLowerCase (conditionalOrderId p') ->
  toLowerCase (transaction p) = toLowerCase (transaction p') ->
  toLowerCase (owner p) = toLowerCase (owner p') ->
  toLowerCase (handler (conditionalOrderParams p)) =
    toLowerCase (handler (conditionalOrderParams p')) ->
  preFilter toLowerCase (construct toLowerCase c) p =
    preFilter toLowerCase (construct toLowerCase c') p'.
Proof.
  intros Hd Ho Hh Ht Hi Hpi Hpt Hpo Hph.
  unfold preFilter, construct. simpl.
  rewrite (convertToMap_same_rules _ _ Ho), (convertToMap_same_rules _ _ Hh),
    (convertToMap_same_rules _ _ Ht), (convertToMap_same_rules _ _ Hi).
  now rewrite Hd, Hpi, Hpt, Hpo, Hph.
Qed.

Lemma convertToMap_normalized (o : option ActionsObject) :
  normalized_object toLowerCase o ->
  convertToMap o (normalizeAddress toLowerCase) = default [] o.
Proof.
  destruct o as [es|]; [| reflexivity]. intros [Hnd Hn]. unfold convertToMap.
  assert (Hmap : map (fun kv : string * FilterAction =>
                        (default kv.1 (normalizeAddress toLowerCase kv.1), kv.2)) es = es).
  { clear Hnd. induction Hn as [|[k v] es Hk _ IH]; [reflexivity |].
    simpl in *. now rewrite Hk, IH. }
  rewrite Hmap. now apply Map_new_NoDup.
Qed.

(** X12. [toJSON] gives back the configuration a policy was constructed
    from, with [{}] for an object that was not given, provided that in each
    object the keys are distinct and already in lower case. *)
Theorem toJSON_roundtrip (c : PolicyInput) :
  normalized_object toLowerCase (in_owners c) ->
  normalized_object toLowerCase (in_handlers c) ->
  normalized_object toLowerCase (in_transactions c) ->
  normalized_object toLowerCase (in_conditionalOrderIds c) ->
  toJSON (construct toLowerCase c) =
    {| json_defaultAction := Some (in_defaultAction c);
       json_owners := default [] (in_owners c);
       json_handlers := default [] (in_handlers c);
       json_transactions := default [] (in_transactions c);
       json_conditionalOrderIds := default [] (in_conditionalOrderIds c) |}.
Proof.
  intros Ho Hh Ht Hi. unfold toJSON, construct. simpl.
  now rewrite !convertToMap_normalized.
Qed.

End Policy.

Lemma preFilter_case_insensitive_witness :
  let c := FilterPolicy.mkPolicyInput FilterPolicy.ACCEPT
             (Some [("0xAB", FilterPolicy.DROP)]) None None None in
  let c' := FilterPolicy.mkPolicyInput FilterPolicy.ACCEPT
              (Some [("0xab", FilterPolicy.DROP)]) None None None in
  let params := FilterPolicy.mkConditionalOrderParams "0x01" "0x02" "0x03" in
  FilterPolicy.preFilter Ascii7.toLowerCase
    (FilterPolicy.construct Ascii7.toLowerCase c)
    (FilterPolicy.mkFilterParams "0xID" "0xTX" "0xAb" params) =
  FilterPolicy.preFilter Ascii7.toLowerCase
    (FilterPolicy.construct Ascii7.toLowerCase c')
    (FilterPolicy.mkFilterParams "0xid" "0xtx" "0XAB" params).
Proof.
  intros c c' params.
  apply (preFilter_case_insensitive Ascii7.toLowerCase c c'); try reflexivity;
    repeat constructor.
Defined.

Lemma toJSON_roundtrip_witness :
  let c := FilterPolicy.mkPolicyInput FilterPolicy.DROP None
             (Some [("0xab", FilterPolicy.ACCEPT)]) None None in
  FilterPolicy.toJSON (FilterPolicy.construct Ascii7.toLowerCase c) =
    FilterPolicy.mkPolicyJSON (Some FilterPolicy.DROP) []
      [("0xab", FilterPolicy.ACCEPT)] [] [].
Proof.
  intros c.
  apply (toJSON_roundtrip Ascii7.toLowerCase c); simpl; try exact I.
  split; [apply NoDup_singleton | repeat constructor].
Defined.

Example policy_last_duplicate_wins :
  let c := FilterPolicy.mkPolicyInput FilterPolicy.ACCEPT
             (Some [("0xAB", FilterPolicy.DROP); ("0xcd", FilterPolicy.SKIP);
                    ("0xab", FilterPolicy.SKIP)])
             (Some [("0xh", FilterPolicy.DROP)]) None None in
  let policy := FilterPolicy.construct Ascii7.toLowerCase c in
  let ask owner handler :=
    FilterPolicy.preFilter Ascii7.toLowerCase policy
      (FilterPolicy.mkFilterParams "id" "tx" owner
         (FilterPolicy.mkConditionalOrderParams handler "" "")) in
  FilterPolicy.owners <$> FilterPolicy.config policy =
    Some [("0xab", FilterPolicy.SKIP); ("0xcd", FilterPolicy.SKIP)] /\
  ask "0xAb" "0xH" = FilterPolicy.SKIP /\
  ask "0xee" "0xH" = FilterPolicy.DROP /\
  ask "0xee" "0xff" = FilterPolicy.ACCEPT.
Proof. vm_compute. auto. Qed.

(** * The configuration generator *)

Section Generator.

Import FilterPolicy GenerateConfig.

Context {num : Type}.
Variables isNaN le_zero : num -> bool.
Variable parseInt : string -> num.

Lemma bind_Return {A B : Type} (c : Completion A) (k : A -> Completion B) (b : B) :
  bind c k = Return b -> exists a, c = Return a /\ k a = Return b.
Proof. destruct c as [a|e]; simpl; [eauto | discriminate]. Qed.

(** What [parsePositiveIntegerEnv] returns and throws, by the state of the
    variable. *)
Lemma parsePositiveIntegerEnv_cases (name : string) (defaultValue : option num)
    (e : gmap string string) :
  (forall v, parsePositiveIntegerEnv isNaN le_zero parseInt name defaultValue e = Return v ->
     ((e !! name = None \/ e !! name = Some "") /\ defaultValue = Some v) \/
     (exists value, e !! name = Some value /\ value <> "" /\
                    v = parseInt value /\ isNaN v = false /\ le_zero v = false)) /\
  (forall err, parsePositiveIntegerEnv isNaN le_zero parseInt name defaultValue e = Throw err ->
     ((e !! name = None \/ e !! name = Some "") /\ defaultValue = None /\
      err = missingVariable name) \/
     (exists value, e !! name = Some value /\ value <> "" /\
                    (isNaN (parseInt value) = true \/ le_zero (parseInt value) = true) /\
                    err = mkError (Some (name +:+ " must be a positive integer, got: " +:+
                                         value)))).
Proof.
  unfold parsePositiveIntegerEnv.
  destruct (e !! name) as [[|c s]|] eqn:He.
  - split; intros x H; left; destruct defaultValue; simplify_eq; auto.
  - split; intros x H; right; exists (String c s).
    + destruct (isNaN _ || le_zero _) eqn:Hp; [discriminate |].
      apply orb_false_iff in Hp as [Hn Hl]. injection H as <-.
      repeat split; try assumption; discriminate.
    + destruct (isNaN _ || le_zero _) eqn:Hp; [| discriminate].
      apply orb_true_iff in Hp. injection H as <-.
      repeat split; try assumption; discriminate.
  - split; intros x H; left; destruct defaultValue; simplify_eq; auto.
Qed.

(** X13. [parsePositiveIntegerEnv] returns the default exactly when the
    variable is unset or empty and a default was given; otherwise what it
    returns is what [parseInt] makes of the variable, and that number is
    neither [NaN] nor [<= 0].  It throws the missing-variable error when the
    variable is unset or empty and there is no default, and the
    not-a-positive-integer error when the variable is set and [parseInt]
    makes of it [NaN] or a number [<= 0]. *)
Theorem parsePositiveIntegerEnv_outcomes (name : string) (defaultValue : option num)
    (e : gmap string string) :
  (forall v, parsePositiveIntegerEnv isNaN le_zero parseInt name defaultValue e = Return v ->
     ((e !! name = None \/ e !! name = Some "") /\ defaultValue = Some v) \/
     (exists value, e !! name = Some value /\ value <> "" /\
                    v = parseInt value /\ isNaN v = false /\ le_zero v = false)) /\
  (forall err, parsePositiveIntegerEnv isNaN le_zero parseInt name defaultValue e = Throw err ->
     ((e !! name = None \/ e !! name = Some "") /\ defaultValue = None /\
      err = missingVariable name) \/
     (exists value, e !! name = Some value /\ value <> "" /\
                    (isNaN (parseInt value) = true \/ le_zero (parseInt value) = true) /\
                    err = mkError (Some (name +:+ " must be a positive integer, got: " +:+
                                         value)))).
Proof. exact (parsePositiveIntegerEnv_cases name defaultValue e). Qed.

End Generator.

Lemma parsePositiveIntegerEnv_outcomes_witness :
  ((({[ "BASE_BLOCK_POLLING_RATE" := "12 blocks" ]} : gmap string string)
      !! "BASE_BLOCK_POLLING_RATE" = None \/
    ({[ "BASE_BLOCK_POLLING_RATE" := "12 blocks" ]} : gmap string string)
      !! "BASE_BLOCK_POLLING_RATE" = Some "") /\
   Some (Int 1) = Some (Int 12)) \/
  (exists value,
     ({[ "BASE_BLOCK_POLLING_RATE" := "12 blocks" ]} : gmap string string)
       !! "BASE_BLOCK_POLLING_RATE" = Some value /\
     value <> "" /\ Int 12 = Ascii7.parseInt value /\
     GenerateConfig.number_isNaN (Int 12) = false /\
     GenerateConfig.number_le_zero (Int 12) = false).
Proof.
  apply (proj1 (parsePositiveIntegerEnv_outcomes GenerateConfig.number_isNaN
                  GenerateConfig.number_le_zero Ascii7.parseInt
                  "BASE_BLOCK_POLLING_RATE" (Some (Int 1))
                  {[ "BASE_BLOCK_POLLING_RATE" := "12 blocks" ]}) (Int 12)).
  reflexivity.
Defined.

Section Networks.

Import FilterPolicy GenerateConfig.

Context {num : Type}.
Variables isNaN le_zero : num -> bool.
Variable one : num.
Variables toLowerCase toUpperCase trim : string -> string.
Variable parseInt : string -> num.
Variable jsLength : string -> nat.

Lemma validateEnvVar_Return (name value : string) (e : gmap string string) :
  validateEnvVar name e = Return value -> e !! name = Some value /\ value <> "".
Proof.
  unfold validateEnvVar. destruct (e !! name) as [[|c s]|]; simpl; intros H;
    simplify_eq. split; [reflexivity | discriminate].
Qed.

Lemma validateAddress_Return (address name result : string) :
  validateAddress toLowerCase jsLength address name = Return result ->
  String.prefix "0x" address = true /\ jsLength address = 42%nat /\
  result = toLowerCase address.
Proof.
  unfold validateAddress.
  destruct (String.prefix "0x" address); simpl; [| discriminate].
  destruct (Nat.eqb_spec (jsLength address) 42); simpl; [| discriminate].
  intros H. injection H as <-. auto.
Qed.

Lemma parsePositive_required (name : string) (e : gmap string string) (v : num) :
  parsePositiveIntegerEnv isNaN le_zero parseInt name None e = Return v ->
  exists value, e !! name = Some value /\ v = parseInt value /\
                isNaN v = false /\ le_zero v = false.
Proof.
  intros H. apply parsePositiveIntegerEnv_cases in H as [[_ H]|H]; [discriminate |].
  destruct H as (value & He & _ & Hv & Hn & Hl). eauto.
Qed.

(** The fields of a network configuration that was returned. *)
Lemma parseNetworkConfig_shape (networkName : string) (e : gmap string string)
    (cfg : NetworkConfig) :
  parseNetworkConfig isNaN le_zero one toLowerCase toUpperCase trim parseInt jsLength
                     networkName e = Return cfg ->
  let prefix := toUpperCase (trim (toLowerCase networkName)) in
  name cfg = trim (toLowerCase networkName) /\
  e !! (prefix +:+ "_RPC_URL") = Some (rpc cfg) /\ rpc cfg <> "" /\
  (exists value, e !! (prefix +:+ "_DEPLOYMENT_BLOCK") = Some value /\
                 deploymentBlock cfg = parseInt value /\
                 isNaN (deploymentBlock cfg) = false /\
                 le_zero (deploymentBlock cfg) = false) /\
  (exists n, processEveryNumBlocks cfg = Some n /\
             (((e !! (prefix +:+ "_BLOCK_POLLING_RATE") = None \/
                e !! (prefix +:+ "_BLOCK_POLLING_RATE") = Some "") /\ n = one) \/
              (exists value, e !! (prefix +:+ "_BLOCK_POLLING_RATE") = Some value /\
                             value <> "" /\ n = parseInt value /\
                             isNaN n = false /\ le_zero n = false))) /\
  (pollingIntervalSeconds cfg = None \/
   exists value, e !! (prefix +:+ "_POLLING_INTERVAL_SECONDS") = Some value /\
                 pollingIntervalSeconds cfg = Some (parseInt value) /\
                 isNaN (parseInt value) = false /\ le_zero (parseInt value) = false) /\
  (exists b, keepExpiredOrders cfg = Some b /\
             (e !! (prefix +:+ "_KEEP_EXPIRED_ORDERS") = None -> b = true)) /\
  (exists raw, e !! (prefix +:+ "_HANDLER_ADDRESS") = Some raw /\
               String.prefix "0x" raw = true /\ jsLength raw = 42%nat /\
               filterPolicy cfg =
                 {| defaultAction := DROP;
                    handlers := Some [(toLowerCase raw, ACCEPT)] |}).
Proof.
  intros H prefix. unfold parseNetworkConfig in H. fold prefix in H.
  apply bind_Return in H as (rpc0 & Hrpc & H).
  apply bind_Return in H as (block & Hblock & H).
  apply bind_Return in H as (raw & Hraw & H).
  apply bind_Return in H as (address & Haddress & H).
  apply bind_Return in H as (rate & Hrate & H).
  apply bind_Return in H as (interval & Hinterval & H).
  injection H as <-. simpl.
  apply validateEnvVar_Return in Hrpc as [Hrpc Hrpc'].
  apply validateEnvVar_Return in Hraw as [Hraw _].
  apply validateAddress_Return in Haddress as (Hp & Hl & ->).
  apply parsePositive_required in Hblock as (value & Hb1 & Hb2 & Hb3 & Hb4).
  split; [reflexivity |]. split; [exact Hrpc |]. split; [exact Hrpc' |].
  split; [exists value; auto |].
  split.
  { exists rate. split; [reflexivity |].
    apply parsePositiveIntegerEnv_cases in Hrate as [[Hu Hd]|Hv].
    - left. split; [exact Hu | congruence].
    - right. exact Hv. }
  split.
  { destruct (e !! (prefix +:+ "_POLLING_INTERVAL_SECONDS")) as [v|] eqn:He;
      [| injection Hinterval as <-; now left].
    destruct (truthy_string v); [| injection Hinterval as <-; now left].
    apply bind_Return in Hinterval as (n & Hn & Hi). injection Hi as <-.
    apply parsePositive_required in Hn as (value' & Hv1 & -> & Hv3 & Hv4).
    right. exists value'. rewrite <- He. auto. }
  split.
  { eexists. split; [reflexivity |]. intros Hn. now rewrite Hn. }
  exists raw. auto.
Qed.

(** X14. A network configuration that [parseNetworkConfig] returns carries
    the normalized name, the RPC URL of the environment (not empty), as
    deployment block what [parseInt] makes of the variable (neither [NaN] nor
    [<= 0]), as block polling rate 1 when the variable is unset or empty and
    otherwise what [parseInt] makes of it (neither [NaN] nor [<= 0]), a
    polling interval that is absent or such a number, and the policy that
    drops by default and accepts one handler: the handler address of the
    environment in lower case, which starts with "0x" and has length 42. *)
Theorem parseNetworkConfig_success (networkName : string) (e : gmap string string)
    (cfg : NetworkConfig) :
  parseNetworkConfig isNaN le_zero one toLowerCase toUpperCase trim parseInt jsLength
                     networkName e = Return cfg ->
  let prefix := toUpperCase (trim (toLowerCase networkName)) in
  name cfg = trim (toLowerCase networkName) /\
  e !! (prefix +:+ "_RPC_URL") = Some (rpc cfg) /\ rpc cfg <> "" /\
  (exists value, e !! (prefix +:+ "_DEPLOYMENT_BLOCK") = Some value /\
                 deploymentBlock cfg = parseInt value /\
                 isNaN (deploymentBlock cfg) = false /\
                 le_zero (deploymentBlock cfg) = false) /\
  (exists n, processEveryNumBlocks cfg = Some n /\
             (((e !! (prefix +:+ "_BLOCK_POLLING_RATE") = None \/
                e !! (prefix +:+ "_BLOCK_POLLING_RATE") = Some "") /\ n = one) \/
              (exists value, e !! (prefix +:+ "_BLOCK_POLLING_RATE") = Some value /\
                             value <> "" /\ n = parseInt value /\
                             isNaN n = false /\ le_zero n = false))) /\
  (pollingIntervalSeconds cfg = None \/
   exists value, e !! (prefix +:+ "_POLLING_INTERVAL_SECONDS") = Some value /\
                 pollingIntervalSeconds cfg = Some (parseInt value) /\
                 isNaN (parseInt value) = false /\ le_zero (parseInt value) = false) /\
  (exists b, keepExpiredOrders cfg = Some b /\
             (e !! (prefix +:+ "_KEEP_EXPIRED_ORDERS") = None -> b = true)) /\
  (exists raw, e !! (prefix +:+ "_HANDLER_ADDRESS") = Some raw /\
               String.prefix "0x" raw = true /\ jsLength raw = 42%nat /\
               filterPolicy cfg =
                 {| defaultAction := DROP;
                    handlers := Some [(toLowerCase raw, ACCEPT)] |}).
Proof. exact (parseNetworkConfig_shape networkName e cfg). Qed.

(** X15. With the policy of a generated network, and a [toLowerCase] that
    leaves lower-case strings as they are, [preFilter] accepts exactly the
    orders whose handler is the handler address of the environment, up to the
    case of letters, and drops every other order, whatever its owner,
    transaction or id. *)
Theorem generated_policy_accepts_handler (networkName : string) (e : gmap string string)
    (cfg : NetworkConfig) (p : FilterParams) :
  (forall s, toLowerCase (toLowerCase s) = toLowerCase s) ->
  parseNetworkConfig isNaN le_zero one toLowerCase toUpperCase trim parseInt jsLength
                     networkName e = Return cfg ->
  exists raw,
    e !! (toUpperCase (trim (toLowerCase networkName)) +:+ "_HANDLER_ADDRESS") = Some raw /\
    preFilter toLowerCase (construct toLowerCase (policyInput (filterPolicy cfg))) p =
      if decide (toLowerCase (handler (conditionalOrderParams p)) = toLowerCase raw)
      then ACCEPT else DROP.
Proof.
  intros Hidem H.
  apply parseNetworkConfig_shape in H as (_ & _ & _ & _ & _ & _ & _ & raw & Hraw & _ & _ & Hfp).
  exists raw. split; [exact Hraw |].
  rewrite preFilter_rule, Hfp. simpl.
  assert (Hn : (if truthy_string (toLowerCase raw)
                then toLowerCase (toLowerCase raw) else toLowerCase raw) = toLowerCase raw).
  { destruct (truthy_string (toLowerCase raw)); [apply Hidem | reflexivity]. }
  destruct (decide (toLowerCase (handler (conditionalOrderParams p)) = toLowerCase raw))
    as [Heq|Hne].
  - rewrite (filter_cons_True _ (toLowerCase raw, ACCEPT) [])
      by (simpl; rewrite Hn; congruence).
    reflexivity.
  - rewrite (filter_cons_False _ (toLowerCase raw, ACCEPT) [])
      by (simpl; rewrite Hn; congruence).
    reflexivity.
Qed.

End Networks.

Section Generated.

Import FilterPolicy GenerateConfig.

Context {num : Type}.
Variables isNaN le_zero : num -> bool.
Variable one : num.
Variables toLowerCase toUpperCase trim : string -> string.
Variable parseInt : string -> num.
Variable jsLength : string -> nat.
Variable Number : string -> number.

(** X16. The generator writes a storage section exactly when [STORAGE_TYPE]
    is "redis", which is when a facade constructed without a storage type
    chooses Redis from the same environment; and the Redis service builds
    from that section the options it builds from the environment itself. *)
Theorem storage_section_agrees (e : gmap string string) :
  (storageConfig Number e <> None <-> e !! "STORAGE_TYPE" = Some "redis") /\
  (storageConfig Number e <> None <-> DBService.resolveStorageType None e = "redis") /\
  (forall s, storageConfig Number e = Some s ->
     type s = "redis" /\
     exists r, redis s = Some r /\
               RedisDBService.makeOptions r =
                 RedisDBService.makeOptions (RedisDBService.envConfig Number e) /\
               RedisDBService.announcedPort r =
                 RedisDBService.announcedPort (RedisDBService.envConfig Number e)).
Proof.
  unfold storageConfig, DBService.resolveStorageType.
  change (or_string None (e !! "STORAGE_TYPE")) with (e !! "STORAGE_TYPE").
  set (st := or_else (e !! "STORAGE_TYPE") "leveldb").
  assert (Hst : st = "redis" <-> e !! "STORAGE_TYPE" = Some "redis").
  { subst st. destruct (e !! "STORAGE_TYPE") as [[|c s]|]; simpl;
      split; intros H; try discriminate H; congruence. }
  destruct (String.eqb_spec st "redis") as [Heq|Hne].
  - split; [split; intros; [now apply Hst | discriminate] |].
    split; [split; intros; [exact Heq | discriminate] |].
    intros s H. injection H as <-. simpl. split; [reflexivity |].
    eexists. split; [reflexivity |]. split; [| reflexivity].
    unfold RedisDBService.makeOptions, RedisDBService.envConfig. simpl.
    destruct (e !! "REDIS_PASSWORD") as [[|c' pw]|]; reflexivity.
  - split; [split; intros H; [congruence | now apply Hst in H] |].
    split; [split; intros H; congruence |].
    intros s H. discriminate.
Qed.

Lemma map_throw_Return {A B : Type} (f : A -> Completion B) (l : list A) (r : list B) :
  map_throw f l = Return r -> Forall2 (fun x y => f x = Return y) l r.
Proof.
  revert r. induction l as [|x l IH]; intros r H; simpl in H.
  - injection H as <-. constructor.
  - apply bind_Return in H as (y & Hy & H).
    apply bind_Return in H as (ys & Hys & H). injection H as <-.
    constructor; [exact Hy | now apply IH].
Qed.

Lemma map_throw_Throw {A B : Type} (f : A -> Completion B) (ok : list A) (bad : A)
    (rest : list A) (err : Error) :
  Forall (fun x => exists y, f x = Return y) ok ->
  f bad = Throw err ->
  map_throw f (ok ++ bad :: rest) = Throw err.
Proof.
  intros Hok Hbad. induction Hok as [|x ok [y Hy] _ IH]; simpl.
  - now rewrite Hbad.
  - now rewrite Hy, IH.
Qed.

(** X17. When [generateConfig] returns, there is at least one network name,
    the networks of the configuration are those names parsed, one by one and
    in order, and the storage section is the one computed from the
    environment.  When there is no name it throws the error about [NETWORKS];
    when a name does not parse, and the names before it do, it throws the
    error of that network, which names it and ends with the message of the
    cause. *)
Theorem generateConfig_outcomes (e : gmap string string) :
  (forall cfg,
     generateConfig isNaN le_zero one toLowerCase toUpperCase trim parseInt jsLength Number e = Return cfg ->
     networkNames trim e <> [] /\
     Forall2 (fun n c =>
                parseNetworkConfig isNaN le_zero one toLowerCase toUpperCase trim parseInt jsLength n e = Return c)
             (networkNames trim e) (networks cfg) /\
     storage cfg = storageConfig Number e) /\
  (networkNames trim e = [] ->
     generateConfig isNaN le_zero one toLowerCase toUpperCase trim parseInt jsLength Number e =
       Throw (mkError (Some "NETWORKS environment variable is empty or invalid. Expected comma-separated list (e.g., 'base,mainnet')"))) /\
  (forall ok bad rest err,
     networkNames trim e = ok ++ bad :: rest ->
     Forall (fun n => exists c,
               parseNetworkConfig isNaN le_zero one toLowerCase toUpperCase trim parseInt jsLength n e = Return c) ok ->
     parseNetworkConfig isNaN le_zero one toLowerCase toUpperCase trim parseInt jsLength bad e = Throw err ->
     generateConfig isNaN le_zero one toLowerCase toUpperCase trim parseInt jsLength Number e =
       Throw (mkError (Some ("Failed to parse configuration for network '" +:+ bad +:+
                             "': " +:+ interpolate (message err))))).
Proof.
  unfold generateConfig. split; [| split].
  - intros cfg H. destruct (networkNames trim e) as [|n names] eqn:Hn; [discriminate |].
    cbn [length Nat.eqb] in H. apply bind_Return in H as (nets & Hnets & H).
    injection H as <-. simpl. split; [discriminate |]. split; [| reflexivity].
    apply map_throw_Return in Hnets.
    eapply Forall2_impl; [exact Hnets |].
    intros x y Hxy. simpl in Hxy.
    destruct (parseNetworkConfig _ _ _ _ _ _ _ _ x e); [exact Hxy | discriminate].
  - intros ->. reflexivity.
  - intros ok bad rest err Hn Hok Hbad. rewrite Hn.
    assert (Hlen : (length (ok ++ bad :: rest) =? 0)%nat = false).
    { apply Nat.eqb_neq. rewrite length_app. simpl. lia. }
    rewrite Hlen.
    rewrite (map_throw_Throw _ ok bad rest (networkFailure bad err)); [reflexivity | |].
    + eapply Forall_impl; [exact Hok |]. intros x [c Hc]. exists c. now rewrite Hc.
    + now rewrite Hbad.
Qed.

End Generated.

Lemma Ascii7_lower_idempotent (s : string) :
  Ascii7.toLowerCase (Ascii7.toLowerCase s) = Ascii7.toLowerCase s.
Proof.
  induction s as [|c s IH]; [reflexivity |].
  unfold Ascii7.toLowerCase in *. simpl. rewrite IH. f_equal.
  destruct c as [[] [] [] [] [] [] [] []]; reflexivity.
Qed.

Lemma parse_network0 :
  GenerateConfig.parseNetworkConfig GenerateConfig.number_isNaN GenerateConfig.number_le_zero (Int 1) Ascii7.toLowerCase Ascii7.toUpperCase Ascii7.trim
    Ascii7.parseInt String.length " Base" Fixture.env0 = Return Fixture.network0.
Proof. vm_compute. reflexivity. Qed.

Lemma parseNetworkConfig_success_witness :
  GenerateConfig.name Fixture.network0 = Ascii7.trim (Ascii7.toLowerCase " Base") /\
  exists value,
    Fixture.env0 !! (Ascii7.toUpperCase (Ascii7.trim (Ascii7.toLowerCase " Base")) +:+
                     "_DEPLOYMENT_BLOCK") = Some value /\
    GenerateConfig.deploymentBlock Fixture.network0 = Ascii7.parseInt value /\
    GenerateConfig.number_isNaN (GenerateConfig.deploymentBlock Fixture.network0) = false /\
    GenerateConfig.number_le_zero (GenerateConfig.deploymentBlock Fixture.network0) = false.
Proof.
  destruct (parseNetworkConfig_success GenerateConfig.number_isNaN
              GenerateConfig.number_le_zero (Int 1)
              Ascii7.toLowerCase Ascii7.toUpperCase Ascii7.trim
              Ascii7.parseInt String.length " Base" Fixture.env0 Fixture.network0 parse_network0)
    as (Hname & _ & _ & Hblock & _).
  exact (conj Hname Hblock).
Defined.

Lemma generated_policy_accepts_handler_witness :
  exists raw,
    Fixture.env0 !! (Ascii7.toUpperCase (Ascii7.trim (Ascii7.toLowerCase " Base")) +:+
                     "_HANDLER_ADDRESS") = Some raw /\
    FilterPolicy.preFilter Ascii7.toLowerCase
      (FilterPolicy.construct Ascii7.toLowerCase
         (GenerateConfig.policyInput (GenerateConfig.filterPolicy Fixture.network0)))
      (Fixture.params0 "0xabcdefABCDEF0123456789abcdefABCDEF012345") =
    if decide (Ascii7.toLowerCase
                 (FilterPolicy.handler
                    (FilterPolicy.conditionalOrderParams
                       (Fixture.params0 "0xabcdefABCDEF0123456789abcdefABCDEF012345"))) =
               Ascii7.toLowerCase raw)
    then FilterPolicy.ACCEPT else FilterPolicy.DROP.
Proof.
  exact (generated_policy_accepts_handler GenerateConfig.number_isNaN GenerateConfig.number_le_zero (Int 1)
              Ascii7.toLowerCase Ascii7.toUpperCase Ascii7.trim
              Ascii7.parseInt String.length " Base" Fixture.env0 Fixture.network0
           (Fixture.params0 "0xabcdefABCDEF0123456789abcdefABCDEF012345")
           Ascii7_lower_idempotent parse_network0).
Defined.

Lemma storage_section_agrees_witness :
  exists s,
    GenerateConfig.storageConfig (fun _ => NaN)
      {[ "STORAGE_TYPE" := "redis"; "REDIS_PASSWORD" := "" ]} = Some s /\
    GenerateConfig.type s = "redis".
Proof.
  eexists. split; [reflexivity |].
  apply (proj2 (proj2 (storage_section_agrees (fun _ => NaN)
                         {[ "STORAGE_TYPE" := "redis"; "REDIS_PASSWORD" := "" ]}))).
  reflexivity.
Defined.

Lemma generate_config0 :
  GenerateConfig.generateConfig GenerateConfig.number_isNaN GenerateConfig.number_le_zero (Int 1) Ascii7.toLowerCase Ascii7.toUpperCase Ascii7.trim
    Ascii7.parseInt String.length (fun _ => NaN) Fixture.env0 =
  Return (GenerateConfig.mkConfig None [Fixture.network0]).
Proof. vm_compute. reflexivity. Qed.

Lemma generateConfig_outcomes_witness :
  GenerateConfig.networkNames Ascii7.trim Fixture.env0 <> [] /\
  Forall2 (fun n c =>
             GenerateConfig.parseNetworkConfig GenerateConfig.number_isNaN GenerateConfig.number_le_zero (Int 1) Ascii7.toLowerCase Ascii7.toUpperCase Ascii7.trim
    Ascii7.parseInt String.length n Fixture.env0 = Return c)
          (GenerateConfig.networkNames Ascii7.trim Fixture.env0) [Fixture.network0] /\
  None = GenerateConfig.storageConfig (fun _ => NaN) Fixture.env0.
Proof.
  exact (proj1 (generateConfig_outcomes GenerateConfig.number_isNaN GenerateConfig.number_le_zero (Int 1)
              Ascii7.toLowerCase Ascii7.toUpperCase Ascii7.trim
              Ascii7.parseInt String.length (fun _ => NaN) Fixture.env0)
               (GenerateConfig.mkConfig None [Fixture.network0]) generate_config0).
Defined.

Example generator_rejects :
  let parse e := GenerateConfig.parseNetworkConfig GenerateConfig.number_isNaN GenerateConfig.number_le_zero (Int 1) Ascii7.toLowerCase Ascii7.toUpperCase Ascii7.trim
    Ascii7.parseInt String.length "base" e in
  parse (delete "BASE_RPC_URL" Fixture.env0) =
    Throw (GenerateConfig.missingVariable "BASE_RPC_URL") /\
  parse (<["BASE_DEPLOYMENT_BLOCK" := "0"]> Fixture.env0) =
    Throw (mkError (Some "BASE_DEPLOYMENT_BLOCK must be a positive integer, got: 0")) /\
  parse (<["BASE_HANDLER_ADDRESS" := "0XABCDEFabcdef0123456789ABCDEFabcdef012345"]>
           Fixture.env0) =
    Throw (mkError (Some "Invalid BASE_HANDLER_ADDRESS address format. Expected 0x-prefixed 42 character address, got: 0XABCDEFabcdef0123456789ABCDEFabcdef012345")) /\
  GenerateConfig.generateConfig GenerateConfig.number_isNaN GenerateConfig.number_le_zero (Int 1) Ascii7.toLowerCase Ascii7.toUpperCase Ascii7.trim
    Ascii7.parseInt String.length (fun _ => NaN) (<["NETWORKS" := " , ,"]> Fixture.env0) =
    Throw (mkError (Some "NETWORKS environment variable is empty or invalid. Expected comma-separated list (e.g., 'base,mainnet')")) /\
  GenerateConfig.generateConfig GenerateConfig.number_isNaN GenerateConfig.number_le_zero (Int 1) Ascii7.toLowerCase Ascii7.toUpperCase Ascii7.trim
    Ascii7.parseInt String.length (fun _ => NaN) (<["NETWORKS" := "base, mainnet"]> Fixture.env0) =
    Throw (mkError (Some "Failed to parse configuration for network 'mainnet': Missing required environment variable: MAINNET_RPC_URL. Please check your .env file.")).
Proof. vm_compute. repeat split. Qed.

(** * The orders routes *)

Section Orders.

Import OrdersRoute.

Variable toLowerCase : string -> string.
Variable typeError : Error.

Lemma Set_add_elem (x y : string) (s : list string) :
  y ∈ Set_add x s <-> y = x \/ y ∈ s.
Proof.
  unfold Set_add. destruct (existsb (String.eqb x) s) eqn:H.
  - apply existsb_exists in H as (z & Hz & Heq). apply String.eqb_eq in Heq. subst z.
    apply list_elem_of_In in Hz. split; [auto | intros [->|Hy]; assumption].
  - rewrite elem_of_app, list_elem_of_singleton. tauto.
Qed.

Lemma Set_add_NoDup (x : string) (s : list string) : NoDup s -> NoDup (Set_add x s).
Proof.
  intros Hs. unfold Set_add. destruct (existsb (String.eqb x) s) eqn:H; [exact Hs |].
  apply NoDup_app. split; [exact Hs |]. split; [| apply NoDup_singleton].
  intros y Hy Hx. apply list_elem_of_singleton in Hx. subst y.
  assert (Ht : existsb (String.eqb x) s = true); [| congruence].
  apply existsb_exists. exists x. split; [now apply list_elem_of_In |].
  apply String.eqb_refl.
Qed.

Lemma addHandlers_app (s : list string) (l1 l2 : list (string * ConditionalOrder)) :
  addHandlers toLowerCase s (l1 ++ l2) =
    addHandlers toLowerCase (addHandlers toLowerCase s l1) l2.
Proof. unfold addHandlers. apply foldl_app. Qed.

Lemma addHandlers_elem (h : string) (ocs : list (string * ConditionalOrder))
    (s : list string) :
  h ∈ addHandlers toLowerCase s ocs <->
    h ∈ s \/ exists oc, oc ∈ ocs /\ toLowerCase (FilterPolicy.handler (params oc.2)) = h.
Proof.
  revert s. induction ocs as [|oc ocs IH]; intros s.
  - simpl. split; [auto |]. intros [H|(oc & Hoc & _)]; [exact H |].
    now apply elem_of_nil in Hoc.
  - change (addHandlers toLowerCase s (oc :: ocs)) with
      (addHandlers toLowerCase
         (Set_add (toLowerCase (FilterPolicy.handler (params oc.2))) s) ocs).
    rewrite IH, Set_add_elem. split.
    + intros [[->|H]|(oc' & Hoc & Hh)]; [right | left | right].
      * exists oc. split; [now left | reflexivity].
      * exact H.
      * exists oc'. split; [now right | exact Hh].
    + intros [H|(oc' & Hoc & Hh)]; [left; now right |].
      apply elem_of_cons in Hoc as [->|Hoc]; [left; left; now symmetry |].
      right. eauto.
Qed.

Lemma addHandlers_NoDup (ocs : list (string * ConditionalOrder)) (s : list string) :
  NoDup s -> NoDup (addHandlers toLowerCase s ocs).
Proof.
  revert s. induction ocs as [|oc ocs IH]; intros s Hs; [exact Hs |].
  apply IH. now apply Set_add_NoDup.
Qed.

(** The inner loop of the listing, for one owner. *)
Lemma visitOrder_fold (handlerFilter : option string) (orderOwner : string)
    (cs : list ConditionalOrder) (st : Loop) :
  foldl (visitOrder toLowerCase handlerFilter orderOwner) st cs =
    {| allHandlers := addHandlers toLowerCase (allHandlers st) (map (pair orderOwner) cs);
       total := total st;
       filteredOrders :=
         filteredOrders st ++
         map entryJSON
             (List.filter (kept toLowerCase handlerFilter) (map (pair orderOwner) cs)) |}.
Proof.
  revert st. induction cs as [|c cs IH]; intros st.
  - simpl. rewrite app_nil_r. now destruct st.
  - simpl. rewrite IH. unfold visitOrder, kept. simpl.
    destruct (filteredOut _ _); simpl; [reflexivity |].
    now rewrite <- app_assoc.
Qed.

(** The two loops of the listing. *)
Lemma visitOwner_fold (handlerFilter : option string)
    (entries : list (string * list ConditionalOrder)) (st : Loop) :
  let ocs := concat (map (fun entry => map (pair entry.1) entry.2) entries) in
  foldl (visitOwner toLowerCase handlerFilter) st entries =
    {| allHandlers := addHandlers toLowerCase (allHandlers st) ocs;
       total := (total st + length ocs)%nat;
       filteredOrders :=
         filteredOrders st ++
         map entryJSON (List.filter (kept toLowerCase handlerFilter) ocs) |}.
Proof.
  revert st. induction entries as [|[o cs] entries IH]; intros st.
  - simpl. rewrite app_nil_r, Nat.add_0_r. now destruct st.
  - simpl in *. rewrite IH. unfold visitOwner. rewrite visitOrder_fold. simpl.
    rewrite addHandlers_app, List.filter_app, map_app, length_app, length_map.
    f_equal; [lia | now rewrite <- app_assoc].
Qed.

(** The listing in terms of all orders of the registry. *)
Lemma listOrders_found (contexts : list ChainContext) (chain : string)
    (handler : option QueryValue) (ctx : ChainContext) (handlerFilter : option string) :
  findChain contexts chain = Some ctx ->
  lowerOrNull toLowerCase typeError handler = Return handlerFilter ->
  listOrders toLowerCase typeError contexts chain handler =
    Orders
      {| body_chainId := chain;
         totalOrders :=
           length (List.filter (kept toLowerCase handlerFilter) (allOrders (registry ctx)));
         totalOrdersInRegistry := length (allOrders (registry ctx));
         allHandlersFound := addHandlers toLowerCase [] (allOrders (registry ctx));
         requestedHandler := handlerFilter;
         body_lastProcessedBlock := lastProcessedBlock (registry ctx);
         body_orders :=
           map entryJSON
               (List.filter (kept toLowerCase handlerFilter) (allOrders (registry ctx))) |}.
Proof.
  intros H Hf. unfold listOrders, listOrders_try. rewrite H, Hf, visitOwner_fold. simpl.
  now rewrite length_map.
Qed.

(** X18. [GET /orders/:chainId] answers 404 for a chain that is not served,
    whatever the query.  For a chain that is served, a [handler] parameter
    that is an array or an object makes the route answer 500, with the
    message of the [TypeError], or "Internal server error" when that is
    empty.  With no [handler], or a string, the route answers with the
    orders of the registry, in the order of the registry, that the handler
    filter keeps: all of them when no handler (or an empty one) is asked for,
    otherwise exactly those whose handler is the one asked for, up to the case
    of letters.  [totalOrders] counts the orders listed,
    [totalOrdersInRegistry] all orders of the registry, and
    [allHandlersFound] holds the handlers of all orders of the registry, in
    lower case, each once. *)
Theorem listOrders_filter (contexts : list ChainContext) (chain : string)
    (handler : option QueryValue) :
  (findChain contexts chain = None ->
     listOrders toLowerCase typeError contexts chain handler =
       NotFound ("Chain " +:+ chain +:+ " not found")) /\
  (forall ctx, findChain contexts chain = Some ctx ->
     ((exists items, handler = Some (QArray items)) \/
      (exists fields, handler = Some (QObject fields)) ->
      listOrders toLowerCase typeError contexts chain handler =
        ServerError (or_else (message typeError) "Internal server error")) /\
     (forall asked : option string, handler = QString <$> asked ->
        let handlerFilter :=
          match asked with
          | Some h => if truthy_string h then Some (toLowerCase h) else None
          | None => None
          end in
        exists body,
          listOrders toLowerCase typeError contexts chain handler = Orders body /\
          body_chainId body = chain /\
          requestedHandler body = handlerFilter /\
          body_orders body =
            map entryJSON
                (List.filter (kept toLowerCase handlerFilter) (allOrders (registry ctx))) /\
          totalOrders body = length (body_orders body) /\
          totalOrdersInRegistry body = length (allOrders (registry ctx)) /\
          NoDup (allHandlersFound body) /\
          (forall h, h ∈ allHandlersFound body <->
                     exists oc, oc ∈ allOrders (registry ctx) /\
                                toLowerCase (FilterPolicy.handler (params oc.2)) = h) /\
          (forall oc, kept toLowerCase handlerFilter oc = true <->
                      handlerFilter = None \/
                      handlerFilter = Some "" \/
                      handlerFilter =
                        Some (toLowerCase (FilterPolicy.handler (params oc.2)))) /\
          (handlerFilter = None -> totalOrders body = totalOrdersInRegistry body))).
Proof.
  split.
  - intros H. unfold listOrders. now rewrite H.
  - intros ctx H. split.
    + intros [[items ->]|[fields ->]]; unfold listOrders, listOrders_try; rewrite H;
        reflexivity.
    + intros asked -> handlerFilter.
      assert (Hf : lowerOrNull toLowerCase typeError (QString <$> asked) =
                   Return handlerFilter) by (destruct asked; reflexivity).
      eexists. split; [exact (listOrders_found _ _ _ ctx _ H Hf) |]. simpl.
      split; [reflexivity |]. split; [reflexivity |].
      split; [reflexivity |]. split; [now rewrite length_map |].
      split; [reflexivity |]. split; [apply addHandlers_NoDup, NoDup_nil_2 |].
      split; [| split].
      * intros h. rewrite addHandlers_elem. split; [| auto].
        intros [Hh|Hh]; [now apply elem_of_nil in Hh | exact Hh].
      * intros oc. unfold kept, filteredOut.
        destruct handlerFilter as [[|c f]|]; simpl.
        -- split; auto.
        -- rewrite negb_involutive, String.eqb_eq. split.
           ++ intros ->. right. right. reflexivity.
           ++ intros [H1|[H1|H1]]; congruence.
        -- split; auto.
      * intros Hn. f_equal. unfold kept. rewrite Hn. simpl.
        induction (allOrders (registry ctx)) as [|oc l IH]; [reflexivity |].
        simpl. now rewrite IH.
Qed.

Lemma find_app {A : Type} (f : A -> bool) (l1 l2 : list A) :
  List.find f (l1 ++ l2) =
    match List.find f l1 with
    | Some x => Some x
    | None => List.find f l2
    end.
Proof.
  induction l1 as [|x l1 IH]; [reflexivity |].
  simpl. destruct (f x); [reflexivity | exact IH].
Qed.

Lemma find_pair (orderOwner : string) (f : string * ConditionalOrder -> bool)
    (cs : list ConditionalOrder) :
  List.find f (map (pair orderOwner) cs) =
    pair orderOwner <$> List.find (fun c => f (orderOwner, c)) cs.
Proof.
  induction cs as [|c cs IH]; [reflexivity |].
  simpl. destruct (f (orderOwner, c)); [reflexivity | exact IH].
Qed.

Lemma findOrder_allOrders (orderId : string) (r : Registry) :
  findOrder toLowerCase orderId (ownerOrders r) =
    List.find (fun oc => String.eqb (toLowerCase (id oc.2)) (toLowerCase orderId))
              (allOrders r).
Proof.
  unfold allOrders. induction (ownerOrders r) as [|[o cs] entries IH]; [reflexivity |].
  simpl. rewrite find_app, find_pair. simpl.
  destruct (List.find _ cs); [reflexivity | exact IH].
Qed.

(** X19. [GET /orders/:chainId/:orderId] for a chain that is served answers
    with the first order of the registry, in the order of the registry, whose
    id is the one asked for up to the case of letters, together with its
    owner; it answers "not found" exactly when no order of the registry has
    such an id. *)
Theorem getOrder_first_match (contexts : list ChainContext) (chain orderId : string)
    (ctx : ChainContext) :
  findChain contexts chain = Some ctx ->
  getOrder toLowerCase contexts chain orderId =
    match List.find (fun oc => String.eqb (toLowerCase (id oc.2)) (toLowerCase orderId))
                    (allOrders (registry ctx)) with
    | Some oc => Order chain oc.1 (orderJSON oc.2)
    | None => NotFound ("Conditional order " +:+ orderId +:+ " not found")
    end /\
  (getOrder toLowerCase contexts chain orderId =
     NotFound ("Conditional order " +:+ orderId +:+ " not found") <->
   forall oc, oc ∈ allOrders (registry ctx) ->
              toLowerCase (id oc.2) <> toLowerCase orderId).
Proof.
  intros H.
  assert (Hget : getOrder toLowerCase contexts chain orderId =
                 match List.find (fun oc => String.eqb (toLowerCase (id oc.2))
                                                       (toLowerCase orderId))
                                 (allOrders (registry ctx)) with
                 | Some oc => Order chain oc.1 (orderJSON oc.2)
                 | None => NotFound ("Conditional order " +:+ orderId +:+ " not found")
                 end).
  { unfold getOrder. rewrite H, findOrder_allOrders.
    destruct (List.find _ _) as [[o c]|]; reflexivity. }
  split; [exact Hget |]. rewrite Hget.
  destruct (List.find _ _) as [oc|] eqn:Hf.
  - split; [discriminate |]. intros Hall. exfalso.
    apply find_some in Hf as [Hin Heq]. apply String.eqb_eq in Heq.
    apply (Hall oc); [now apply list_elem_of_In | exact Heq].
  - split; [| reflexivity]. intros _ oc Hin Heq.
    apply list_elem_of_In in Hin.
    pose proof (find_none _ _ Hf oc Hin) as Hn. simpl in Hn.
    apply String.eqb_neq in Hn. contradiction.
Qed.

End Orders.

Lemma listOrders_filter_witness :
  OrdersRoute.listOrders Ascii7.toLowerCase
    (mkError (Some "handler.toLowerCase is not a function")) RouteFixture.contexts0 "8453"
    (Some (OrdersRoute.QArray [OrdersRoute.QString "0xAA"; OrdersRoute.QString "0xbb"])) =
    OrdersRoute.ServerError "handler.toLowerCase is not a function" /\
  exists body,
    OrdersRoute.listOrders Ascii7.toLowerCase
      (mkError (Some "handler.toLowerCase is not a function")) RouteFixture.contexts0 "8453"
      (Some (OrdersRoute.QString "0xAA")) = OrdersRoute.Orders body /\
    OrdersRoute.requestedHandler body = Some "0xaa" /\
    OrdersRoute.totalOrders body = length (OrdersRoute.body_orders body) /\
    OrdersRoute.totalOrdersInRegistry body =
      length (OrdersRoute.allOrders RouteFixture.registry0).
Proof.
  split.
  - apply (proj1 (proj2 (listOrders_filter Ascii7.toLowerCase
                           (mkError (Some "handler.toLowerCase is not a function"))
                           RouteFixture.contexts0 "8453"
                           (Some (OrdersRoute.QArray [OrdersRoute.QString "0xAA";
                                                      OrdersRoute.QString "0xbb"])))
                        (OrdersRoute.mkChainContext 8453 RouteFixture.registry0) eq_refl)).
    left. eexists. reflexivity.
  - destruct (proj2 (proj2 (listOrders_filter Ascii7.toLowerCase
                              (mkError (Some "handler.toLowerCase is not a function"))
                              RouteFixture.contexts0 "8453"
                              (Some (OrdersRoute.QString "0xAA")))
                           (OrdersRoute.mkChainContext 8453 RouteFixture.registry0) eq_refl)
                    (Some "0xAA") eq_refl)
      as (body & Hbody & _ & Hreq & _ & Htotal & Hall & _).
    exists body. auto.
Defined.

Lemma getOrder_first_match_witness :
  OrdersRoute.getOrder Ascii7.toLowerCase RouteFixture.contexts0 "8453" "0XC3" =
    match List.find (fun oc => String.eqb (Ascii7.toLowerCase (OrdersRoute.id oc.2))
                                          (Ascii7.toLowerCase "0XC3"))
                    (OrdersRoute.allOrders RouteFixture.registry0) with
    | Some oc => OrdersRoute.Order "8453" oc.1 (OrdersRoute.orderJSON oc.2)
    | None => OrdersRoute.NotFound ("Conditional order " +:+ "0XC3" +:+ " not found")
    end.
Proof.
  apply (getOrder_first_match Ascii7.toLowerCase RouteFixture.contexts0 "8453" "0XC3"
           (OrdersRoute.mkChainContext 8453 RouteFixture.registry0)).
  reflexivity.
Defined.

Example orders_listing :
  let listOrders :=
    OrdersRoute.listOrders Ascii7.toLowerCase
      (mkError (Some "handler.toLowerCase is not a function")) RouteFixture.contexts0 in
  let answer handler :=
    match listOrders "8453" (OrdersRoute.QString <$> handler) with
    | OrdersRoute.Orders body =>
        Some (OrdersRoute.totalOrders body, OrdersRoute.totalOrdersInRegistry body,
              OrdersRoute.allHandlersFound body,
              map (fun o => OrdersRoute.json_id (OrdersRoute.conditionalOrder o))
                  (OrdersRoute.body_orders body))
    | _ => None
    end in
  answer (Some "0xAA") = Some (2%nat, 3%nat, ["0xaa"; "0xbb"], ["0xA1"; "0xc3"]) /\
  answer (Some "") = Some (3%nat, 3%nat, ["0xaa"; "0xbb"], ["0xA1"; "0xB2"; "0xc3"]) /\
  answer None = Some (3%nat, 3%nat, ["0xaa"; "0xbb"], ["0xA1"; "0xB2"; "0xc3"]) /\
  answer (Some "0xdd") = Some (0%nat, 3%nat, ["0xaa"; "0xbb"], []) /\
  listOrders "08453" None = OrdersRoute.NotFound "Chain 08453 not found" /\
  listOrders "8453" (Some (OrdersRoute.QArray [OrdersRoute.QString "0xaa"])) =
    OrdersRoute.ServerError "handler.toLowerCase is not a function" /\
  listOrders "8453" (Some (OrdersRoute.QObject [("a", OrdersRoute.QString "0xaa")])) =
    OrdersRoute.ServerError "handler.toLowerCase is not a function" /\
  listOrders "08453" (Some (OrdersRoute.QArray [])) =
    OrdersRoute.NotFound "Chain 08453 not found" /\
  OrdersRoute.getOrder Ascii7.toLowerCase RouteFixture.contexts0 "8453" "0XC3" =
    OrdersRoute.Order "8453" "0xowner2" (OrdersRoute.orderJSON (RouteFixture.order0 "0xc3" "0xaa")) /\
  OrdersRoute.ordersArray (RouteFixture.order0 "0xc3" "0xaa") =
    [OrdersRoute.mkOrderJSON "0xu1" "SUBMITTED"; OrdersRoute.mkOrderJSON "0xu2" "FILLED";
     OrdersRoute.mkOrderJSON "0xu3" "UNKNOWN"].
Proof. vm_compute. repeat split. Qed.

(** * Reading back what was written *)

Section ReadBack.

Import Client RedisDBService.

(** X20. After a [write] that succeeds, [get] answers for a key by the last
    operation of the batch on that key: the value of a [put], [NotFound]
    after a [del]; what the store held before and the operations on other
    keys do not matter. *)
Theorem read_your_writes (this : t) (w : Wire) (k : string) (last : Operation)
    (before after : list Operation) :
  op_key last = k ->
  Forall (fun op => op_key op <> k) after ->
  (get this None k (write this None (chain (before ++ last :: after) batch) w).1.1).2 =
    match last with
    | put_op _ v => Return v
    | del_op _ => Throw (NotFound k)
    end.
Proof. exact (last_operation_wins this w k last before after). Qed.

Lemma read_your_writes_witness :
  (get service0 None "order:123"
       (write service0 None
              (chain ([put_op "order:123" "open"] ++ del_op "order:123" :: [put_op "a" "1"])
                     batch)
              (mkWire ∅ [])).1.1).2 = Throw (NotFound "order:123").
Proof.
  apply (read_your_writes service0 (mkWire ∅ []) "order:123" (del_op "order:123")
           [put_op "order:123" "open"] [put_op "a" "1"]).
  - reflexivity.
  - repeat constructor. simpl. discriminate.
Defined.

End ReadBack.

(** * Environments the generator accepts *)

Section Accepts.

Import FilterPolicy GenerateConfig.

Context {num : Type}.
Variables isNaN le_zero : num -> bool.
Variable one : num.
Variables toLowerCase toUpperCase trim : string -> string.
Variable parseInt : string -> num.
Variable jsLength : string -> nat.

Lemma validateEnvVar_set (name value : string) (e : gmap string string) :
  e !! name = Some value -> value <> "" -> validateEnvVar name e = Return value.
Proof.
  intros He Hne. unfold validateEnvVar. rewrite He.
  destruct value; [contradiction | reflexivity].
Qed.

Lemma parsePositive_set (name value : string) (d : option num) (e : gmap string string) :
  e !! name = Some value -> value <> "" ->
  isNaN (parseInt value) = false -> le_zero (parseInt value) = false ->
  parsePositiveIntegerEnv isNaN le_zero parseInt name d e = Return (parseInt value).
Proof.
  intros He Hne Hn Hl. unfold parsePositiveIntegerEnv. rewrite He.
  destruct value as [|c s]; [contradiction |]. now rewrite Hn, Hl.
Qed.

Lemma parsePositive_optional (name : string) (d : num) (e : gmap string string) :
  (e !! name = None \/ e !! name = Some "" \/
   exists value, e !! name = Some value /\
                 isNaN (parseInt value) = false /\ le_zero (parseInt value) = false) ->
  exists n, parsePositiveIntegerEnv isNaN le_zero parseInt name (Some d) e = Return n.
Proof.
  intros [He|[He|(value & He & Hn & Hl)]].
  - exists d. unfold parsePositiveIntegerEnv. now rewrite He.
  - exists d. unfold parsePositiveIntegerEnv. now rewrite He.
  - destruct value as [|c s].
    + exists d. unfold parsePositiveIntegerEnv. now rewrite He.
    + exists (parseInt (String c s)). now apply parsePositive_set.
Qed.

(** X21. [parseNetworkConfig] returns a configuration whenever the
    environment has, under the prefix of the network, a non-empty RPC URL, a
    non-empty deployment block of which [parseInt] makes a number that is
    neither [NaN] nor [<= 0], a handler address of length 42 that starts
    with "0x", and a block polling rate and a polling interval that are each
    unset, empty or such a number.  The configuration carries that RPC URL,
    what [parseInt] makes of the deployment block, and the handler address in
    lower case as the one accepted handler. *)
Theorem parseNetworkConfig_accepts (networkName rpcUrl block raw : string)
    (e : gmap string string) :
  let prefix := toUpperCase (trim (toLowerCase networkName)) in
  e !! (prefix +:+ "_RPC_URL") = Some rpcUrl -> rpcUrl <> "" ->
  e !! (prefix +:+ "_DEPLOYMENT_BLOCK") = Some block -> block <> "" ->
  isNaN (parseInt block) = false -> le_zero (parseInt block) = false ->
  e !! (prefix +:+ "_HANDLER_ADDRESS") = Some raw ->
  String.prefix "0x" raw = true -> jsLength raw = 42%nat ->
  (e !! (prefix +:+ "_BLOCK_POLLING_RATE") = None \/
   e !! (prefix +:+ "_BLOCK_POLLING_RATE") = Some "" \/
   exists value, e !! (prefix +:+ "_BLOCK_POLLING_RATE") = Some value /\
                 isNaN (parseInt value) = false /\ le_zero (parseInt value) = false) ->
  (e !! (prefix +:+ "_POLLING_INTERVAL_SECONDS") = None \/
   e !! (prefix +:+ "_POLLING_INTERVAL_SECONDS") = Some "" \/
   exists value, e !! (prefix +:+ "_POLLING_INTERVAL_SECONDS") = Some value /\
                 isNaN (parseInt value) = false /\ le_zero (parseInt value) = false) ->
  exists cfg,
    parseNetworkConfig isNaN le_zero one toLowerCase toUpperCase trim parseInt jsLength
                       networkName e = Return cfg /\
    rpc cfg = rpcUrl /\ deploymentBlock cfg = parseInt block /\
    handlers (filterPolicy cfg) = Some [(toLowerCase raw, ACCEPT)].
Proof.
  intros prefix Hrpc Hrpc' Hblock Hblock' Hbn Hbl Hraw Hp Hl Hrate Hint.
  unfold parseNetworkConfig. fold prefix.
  rewrite (validateEnvVar_set _ _ _ Hrpc Hrpc'). simpl.
  rewrite (parsePositive_set _ _ None _ Hblock Hblock' Hbn Hbl). simpl.
  assert (Hraw' : raw <> "") by (intros ->; discriminate).
  rewrite (validateEnvVar_set _ _ _ Hraw Hraw'). simpl.
  unfold validateAddress. rewrite Hp, Hl. simpl.
  destruct (parsePositive_optional _ one _ Hrate) as [n Hn]. rewrite Hn. simpl.
  destruct Hint as [He|[He|(value & He & Hvn & Hvl)]]; rewrite He.
  - eexists. simpl. repeat split.
  - eexists. simpl. repeat split.
  - destruct value as [|c s]; [eexists; simpl; repeat split |].
    simpl. rewrite (parsePositive_set _ (String c s) None e He); try done.
    eexists. simpl. repeat split.
Qed.

End Accepts.

Lemma parseNetworkConfig_accepts_witness :
  exists cfg,
    GenerateConfig.parseNetworkConfig GenerateConfig.number_isNaN
      GenerateConfig.number_le_zero (Int 1)
      Ascii7.toLowerCase Ascii7.toUpperCase Ascii7.trim
      Ascii7.parseInt String.length "base" Fixture.env0 = Return cfg /\
    GenerateConfig.rpc cfg = "https://rpc.example" /\
    GenerateConfig.deploymentBlock cfg = Ascii7.parseInt "1200" /\
    GenerateConfig.handlers (GenerateConfig.filterPolicy cfg) =
      Some [(Ascii7.toLowerCase "0xABCDEFabcdef0123456789ABCDEFabcdef012345",
             FilterPolicy.ACCEPT)].
Proof.
  apply (parseNetworkConfig_accepts GenerateConfig.number_isNaN
           GenerateConfig.number_le_zero (Int 1)
           Ascii7.toLowerCase Ascii7.toUpperCase Ascii7.trim
           Ascii7.parseInt String.length "base" "https://rpc.example" "1200"
           "0xABCDEFabcdef0123456789ABCDEFabcdef012345" Fixture.env0);
    try reflexivity; try discriminate; left; reflexivity.
Defined.
